(** * PWA lifecycle layer: worker-side cache controller and page-side coordinator

  A shallow embedding of [public/sw.js], [src/js/serviceWorkerManager.js]
  and the [PWAManager] class, together with the properties of the
  install / activate / fetch policy and of the update handshake. *)

From Stdlib Require Import ZArith NArith String Ascii List Bool Lia.
From stdpp Require Import base option list strings.
Import ListNotations.

Local Open Scope string_scope.

(** ** The browser side: requests, responses, Cache and CacheStorage

  The worker script calls [caches.open], [caches.match], [caches.keys],
  [caches.delete], [cache.addAll], [cache.put] and [fetch].  They are
  modelled after the Service Worker specification: a [Cache] is the list
  of the stored request and response pairs, in insertion order, and a
  [CacheStorage] is the list of the named caches, in creation order.  The
  storage quota is never exceeded. *)
Module Platform.

(** [event.request]: its method, its URL (the serialized URL of an http(s)
    resource, fragment included) and its header list. *)
Record Request := mkRequest
  { req_method : string; req_url : string; req_headers : list (string * string) }.

#[global] Instance Request_eq_dec : EqDecision Request.
Proof. solve_decision. Defined.

(** A response as the cache sees it: the status code, the field names
    listed in its [Vary] header, and the body. *)
Record Response := mkResponse
  { resp_status : Z; resp_vary : list string; resp_body : string }.

(** The URL parser at the location of the worker script: it resolves a
    reference written in the script against the script's base URL and
    serializes the result. *)
Definition Parser := string -> string.

(** [new Request(url)], what [caches.match(url)] and [cache.addAll([url])]
    build from a string: a GET of the parsed URL, with no header. *)
Definition request_of_url (parse : Parser) (u : string) : Request :=
  {| req_method := "GET"; req_url := parse u; req_headers := [] |}.

Definition is_get (r : Request) : bool := bool_decide (req_method r = "GET").

(** A URL without its fragment. *)
Fixpoint strip_fragment (u : string) : string :=
  match u with
  | EmptyString => EmptyString
  | String c rest =>
      if Ascii.eqb c "#" then EmptyString else String c (strip_fragment rest)
  end.

(** URLs are compared with the fragment excluded. *)
Definition same_url (r1 r2 : Request) : bool :=
  bool_decide (strip_fragment (req_url r1) = strip_fragment (req_url r2)).

(** Header names are compared without regard to case. *)
Definition lower_char (c : ascii) : ascii :=
  let n := N_of_ascii c in
  if ((65 <=? n) && (n <=? 90))%N then ascii_of_N (n + 32) else c.

Fixpoint lower (s : string) : string :=
  match s with
  | EmptyString => EmptyString
  | String c rest => String (lower_char c) (lower rest)
  end.

Definition header_values (name : string) (hs : list (string * string))
  : list string :=
  map snd (List.filter (fun h => String.eqb (lower h.1) (lower name)) hs).

(** The combined value of a header: its values joined by a comma and a
    space, or nothing when the header is absent. *)
Definition header (name : string) (hs : list (string * string)) : option string :=
  match header_values name hs with
  | [] => None
  | v :: vs => Some (fold_left (fun acc x => acc ++ ", " ++ x) vs v)
  end.

(** Whether the response carries [Vary: *]. *)
Definition resp_vary_all (resp : Response) : bool :=
  existsb (String.eqb "*") (resp_vary resp).

(** The [Vary] check of a lookup: no field is [*], and for every field
    named the request stored and the request looked up have the same
    combined value. *)
Definition vary_agrees (cached query : Request) (resp : Response) : bool :=
  negb (resp_vary_all resp) &&
  forallb (fun field =>
             bool_decide (header field (req_headers cached) =
                          header field (req_headers query)))
          (resp_vary resp).

Abbreviation Cache := (list (Request * Response)).
Abbreviation CacheStorage := (list (string * list (Request * Response))).

(** "Request matches cached item", with the default options. *)
Definition request_matches (query : Request) (entry : Request * Response) : bool :=
  is_get entry.1 && same_url query entry.1 && vary_agrees entry.1 query entry.2.

(** "Query cache": the entries the request matches, in insertion order. *)
Definition query_cache (query : Request) (c : Cache) : Cache :=
  List.filter (request_matches query) c.

(** The network of one moment: [None] is a rejected [fetch] (offline, DNS
    failure), [Some] a resolved one, whatever its status. *)
Definition Network := Request -> option Response.

Definition offline : Network := fun _ => None.

(** [cache.match(request)]: only GET requests match, and the first entry
    matched answers. *)
Definition cache_match (c : Cache) (r : Request) : option Response :=
  if is_get r then snd <$> head (query_cache r c) else None.

(** [cache.put] rejects with a [TypeError] a request that is not a GET, a
    206 response and a [Vary: *] response. *)
Definition put_accepts (r : Request) (resp : Response) : bool :=
  is_get r && negb (resp_status resp =? 206)%Z && negb (resp_vary_all resp).

(** A put removes the entries its request matches and appends the new
    pair. *)
Definition put_entry (r : Request) (resp : Response) (c : Cache) : Cache :=
  (List.filter (fun e => negb (request_matches r e)) c ++ [(r, resp)])%list.

Definition cache_put (r : Request) (resp : Response) (c : Cache) : option Cache :=
  if put_accepts r resp then Some (put_entry r resp c) else None.

(** [cache.addAll] also rejects a response whose status is not in 200..299. *)
Definition addAll_accepts (resp : Response) : bool :=
  (200 <=? resp_status resp)%Z && (resp_status resp <=? 299)%Z
  && negb (resp_status resp =? 206)%Z && negb (resp_vary_all resp).

(** The fetches of [cache.addAll]: every request is sent; one rejected
    fetch or one refused response rejects the whole batch. *)
Fixpoint fetch_all (net : Network) (reqs : list Request)
  : option (list (Request * Response)) :=
  match reqs with
  | [] => Some []
  | r :: rest =>
      match net r with
      | Some resp =>
          if addAll_accepts resp
          then match fetch_all net rest with
               | Some got => Some ((r, resp) :: got)
               | None => None
               end
          else None
      | None => None
      end
  end.

(** The puts of one batch, in order.  A request that matches a pair added
    earlier in the same batch rejects the batch ([InvalidStateError]). *)
Fixpoint put_all (batch added : Cache) (c : Cache) : option Cache :=
  match batch with
  | [] => Some c
  | (r, resp) :: rest =>
      if existsb (request_matches r) added then None
      else put_all rest (added ++ [(r, resp)])%list (put_entry r resp c)
  end.

(** [cache.addAll(urls)]: all or nothing. *)
Definition cache_addAll (parse : Parser) (net : Network) (urls : list string)
  (c : Cache) : option Cache :=
  match fetch_all net (map (request_of_url parse) urls) with
  | Some got => put_all got [] c
  | None => None
  end.

Fixpoint storage_lookup (name : string) (st : CacheStorage) : option Cache :=
  match st with
  | [] => None
  | (n, c) :: rest => if bool_decide (n = name) then Some c else storage_lookup name rest
  end.

Definition storage_has (name : string) (st : CacheStorage) : bool :=
  bool_decide (is_Some (storage_lookup name st)).

(** [caches.open(name)] creates the cache when it does not exist; a new
    cache is the youngest one. *)
Definition storage_open (name : string) (st : CacheStorage) : CacheStorage :=
  if storage_has name st then st else (st ++ [(name, [])])%list.

Fixpoint storage_update (name : string) (c : Cache) (st : CacheStorage)
  : CacheStorage :=
  match st with
  | [] => []
  | (n, c0) :: rest =>
      if bool_decide (n = name) then (n, c) :: rest
      else (n, c0) :: storage_update name c rest
  end.

(** [caches.keys()]: the names, in creation order. *)
Definition storage_keys (st : CacheStorage) : list string := st.*1.

(** [caches.delete(name)]. *)
Definition storage_delete (name : string) (st : CacheStorage) : CacheStorage :=
  filter (fun p => p.1 <> name) st.

(** [caches.match(request)]: the caches are searched in creation order and
    the first match wins. *)
Fixpoint storage_match (st : CacheStorage) (r : Request) : option Response :=
  match st with
  | [] => None
  | (_, c) :: rest =>
      match cache_match c r with
      | Some resp => Some resp
      | None => storage_match rest r
      end
  end.

End Platform.

(** ** The worker script, [public/sw.js] *)
Module SW.
Import Platform.

(** A deployment of the script: its constants and its location.
    [cacheName] and [defaultResponseURL] are the values to edit at each
    deployment; [keepExtra] and [preCacheExtra] are the entries a
    deployment adds to [cacheKeepList] and [preCacheURLs]; [parse_url] is
    the URL parser at the place the script is served from. *)
Record Config := mkConfig
  { cacheName : string;
    keepExtra : list string;
    defaultResponseURL : string;
    preCacheExtra : list string;
    parse_url : Parser }.

Definition cacheKeepList (cfg : Config) : list string :=
  cacheName cfg :: keepExtra cfg.

Definition preCacheURLs (cfg : Config) : list string :=
  defaultResponseURL cfg :: preCacheExtra cfg.

(** [new Request(url)] in the script. *)
Definition new_request (cfg : Config) (u : string) : Request :=
  request_of_url (parse_url cfg) u.

(** The site the runs below are on. *)
Definition origin : string := "https://pwa.example".

(** The URL parser for a script served from the root of [origin], on the
    references the runs below use: an absolute http(s) URL is kept, a
    reference that starts with a slash is a path of the origin, and any
    other reference is a path relative to the root, with or without a
    leading [./]. *)
Definition at_root : Parser := fun u =>
  if String.prefix "https://" u || String.prefix "http://" u then u
  else if String.prefix "/" u then origin ++ u
  else if String.prefix "./" u
       then origin ++ "/" ++ String.substring 2 (String.length u - 2) u
       else origin ++ "/" ++ u.

(** The script as it is in the repository, served from the root of the
    site. *)
Definition deployed : Config :=
  {| cacheName := "v0.0.0"; keepExtra := [];
     defaultResponseURL := "/offline.html"; preCacheExtra := [];
     parse_url := at_root |}.

(** How the promise given to [event.waitUntil] settles. *)
Inductive Settled := Fulfilled | Rejected.

(** A handler runs against the network of the moment and the cache
    storage; it yields its value, the storage it leaves, and the requests
    it sent to the network.  Promise chains run to completion, in program
    order. *)
Definition Job (A : Type) : Type :=
  Network -> CacheStorage -> A * CacheStorage * list Request.

Definition ret {A} (a : A) : Job A := fun _ st => (a, st, []).

Definition bind {A B} (m : Job A) (k : A -> Job B) : Job B :=
  fun net st =>
    let '(a, st1, sent1) := m net st in
    let '(b, st2, sent2) := k a net st1 in
    (b, st2, (sent1 ++ sent2)%list).

Notation "'await' x <- m 'in' k" := (bind m (fun x => k))
  (at level 10, x name, m at level 100, k at level 200).

Definition caches_match (r : Request) : Job (option Response) :=
  fun _ st => (storage_match st r, st, []).

Definition caches_open (name : string) : Job unit :=
  fun _ st => (tt, storage_open name st, []).

Definition caches_keys : Job (list string) :=
  fun _ st => (storage_keys st, st, []).

Definition caches_delete (name : string) : Job bool :=
  fun _ st => (storage_has name st, storage_delete name st, []).

Definition fetch (r : Request) : Job (option Response) :=
  fun net st => (net r, st, [r]).

(** [cache.put(request, response)] on the cache opened under [name];
    [false] when the promise rejects. *)
Definition cache_put_in (name : string) (r : Request) (resp : Response) : Job bool :=
  fun _ st =>
    match storage_lookup name st with
    | Some c =>
        match cache_put r resp c with
        | Some c' => (true, storage_update name c' st, [])
        | None => (false, st, [])
        end
    | None => (false, st, [])
    end.

(** [cache.addAll(urls)] on the cache opened under [name]. *)
Definition cache_addAll_in (parse : Parser) (name : string) (urls : list string)
  : Job Settled :=
  fun net st =>
    let sent := map (request_of_url parse) urls in
    match storage_lookup name st with
    | Some c =>
        match cache_addAll parse net urls c with
        | Some c' => (Fulfilled, storage_update name c' st, sent)
        | None => (Rejected, st, sent)
        end
    | None => (Rejected, st, [])
    end.

(** [Array.prototype.indexOf]. *)
Fixpoint indexOf (l : list string) (key : string) : Z :=
  match l with
  | [] => (-1)%Z
  | x :: rest =>
      if bool_decide (x = key) then 0%Z
      else let i := indexOf rest key in
           if (i =? -1)%Z then (-1)%Z else (i + 1)%Z
  end.

(** [Promise.all(jobs)] for jobs that do not reject. *)
Fixpoint promise_all {A} (jobs : list (Job A)) : Job (list A) :=
  match jobs with
  | [] => ret []
  | j :: rest => await a <- j in await others <- promise_all rest in ret (a :: others)
  end.

(** The "message" listener: the calls it makes on [self]. *)
Inductive WorkerCall := SkipWaiting.

Definition on_message (action : string) : list WorkerCall :=
  if bool_decide (action = "skipWaiting") then [SkipWaiting] else [].

(** The "install" listener: the promise handed to [event.waitUntil]. *)
Definition install (cfg : Config) : Job Settled :=
  await _ <- caches_open (cacheName cfg) in
  cache_addAll_in (parse_url cfg) (cacheName cfg) (preCacheURLs cfg).

(** The "activate" listener: the function mapped over the key list, which
    gives the promise of [caches.delete] or [undefined], and the promise
    handed to [event.waitUntil]. *)
Definition delete_unless_kept (cfg : Config) (key : string) : Job (option bool) :=
  if (indexOf (cacheKeepList cfg) key =? -1)%Z
  then await deleted <- caches_delete key in ret (Some deleted)
  else ret None.

Definition activate (cfg : Config) : Job Settled :=
  await keyList <- caches_keys in
  await _ <- promise_all (map (delete_unless_kept cfg) keyList) in
  ret Fulfilled.

(** The "fetch" listener: what [event.respondWith] receives; [None] is a
    promise that gives no response, which the page sees as a failed
    fetch. *)
Definition on_fetch (cfg : Config) (request : Request) : Job (option Response) :=
  await resp <- caches_match request in
  match resp with
  | Some cached => ret (Some cached)
  | None =>
      await answer <- fetch request in
      match answer with
      | Some response =>
          await _ <- caches_open (cacheName cfg) in
          await _ <- cache_put_in (cacheName cfg) request response in
          ret (Some response)
      | None => caches_match (new_request cfg (defaultResponseURL cfg))
      end
  end.

(** The current generation is the oldest cache of the storage.  So it is
    once [activate] has run with nothing but the current generation to
    keep, and so it stays while this worker serves: later caches are
    created behind it. *)
Definition current_oldest (cfg : Config) (st : CacheStorage) : Prop :=
  head (storage_keys st) = Some (cacheName cfg).

(** The storages a worker of [cfg] may find when its activate phase starts:
    its install phase has succeeded, and until it activates the worker in
    charge, of whatever generation, serves interceptions and workers of any
    generation install. *)
Inductive waiting (cfg : Config) : CacheStorage -> Prop :=
| waiting_installed net st :
    (install cfg net st).1.1 = Fulfilled -> waiting cfg (install cfg net st).1.2
| waiting_fetch cfg' net r st :
    waiting cfg st -> waiting cfg (on_fetch cfg' r net st).1.2
| waiting_install cfg' net st :
    waiting cfg st -> waiting cfg (install cfg' net st).1.2.

(** The storages the worker of [cfg] finds when it handles a fetch.  Fetch
    events reach a worker once its activate phase has completed; from then
    on the storage changes by the interceptions the worker serves and by the
    install phases of workers of any generation. *)
Inductive served_by (cfg : Config) : CacheStorage -> Prop :=
| served_activated net st :
    waiting cfg st -> served_by cfg (activate cfg net st).1.2
| served_fetch net r st :
    served_by cfg st -> served_by cfg (on_fetch cfg r net st).1.2
| served_install cfg' net st :
    served_by cfg st -> served_by cfg (install cfg' net st).1.2.







(** The cache of the generation [cfg] exists and holds the offline
    fallback. *)
Definition holds_fallback (cfg : Config) (st : CacheStorage) : Prop :=
  exists c : Cache,
    storage_lookup (cacheName cfg) st = Some c /\
    is_Some (cache_match c (new_request cfg (defaultResponseURL cfg))).

End SW.

(** ** The page side: what both page classes share *)
Module Page.

(** [ServiceWorker.state]. *)
Inductive WorkerState :=
  parsed | installing | installed | activating | activated | redundant.

#[global] Instance WorkerState_eq_dec : EqDecision WorkerState.
Proof. solve_decision. Defined.

Definition state_name (s : WorkerState) : string :=
  match s with
  | parsed => "parsed" | installing => "installing" | installed => "installed"
  | activating => "activating" | activated => "activated"
  | redundant => "redundant"
  end.

(** A value the host passes for a button: [null], an [HTMLElement] (named
    by an identifier), or anything else. *)
Inductive HostValue := VNull | VElement (el : string) | VOther (what : string).

Inductive HostCallback := BeforeInstallPrompt | AppInstalled | ControllerChange.

#[global] Instance HostCallback_eq_dec : EqDecision HostCallback.
Proof. solve_decision. Defined.

(** What a page-side handler does to the outside, in program order.  A
    host callback is recorded as a call; when the call throws, the
    exception follows it as [Uncaught]. *)
Inductive Effect :=
| Register (path scope : string)
| PostMessage (worker : nat) (action : string)
| DispatchWindowEvent (type : string)
| CallHost (cb : HostCallback) (event : nat)
| PreventDefault (event : nat)
| Prompt (event : nat)
| Reload
| ConsoleLog (msg : string)
| ConsoleError (msg : string)
| Uncaught (error : string)
| UnhandledRejection (error : string).

(** What the page reads from the browser when a handler runs. *)
Record Env := mkEnv
  { has_serviceWorker : bool;          (* 'serviceWorker' in navigator *)
    controller : option nat;           (* navigator.serviceWorker.controller *)
    worker_state : nat -> WorkerState; (* worker.state *)
    reg_installing : option nat;       (* reg.installing *)
    global_updateButton : option HostValue; (* the global named updateButton *)
    host_throws : HostCallback -> option string
      (* what the host's callback throws when called now, if it throws:
         its own exception, or the TypeError of a value that is no function *) }.

(** The events with which the host callback [cb] was called, in order. *)
Definition calls (cb : HostCallback) (out : list Effect) : list nat :=
  omap (fun eff => match eff with
                   | CallHost c e => if decide (c = cb) then Some e else None
                   | _ => None
                   end) out.

(** The messages posted, with the worker each one goes to, and the types
    of the events dispatched on the window, in order. *)
Definition posts (out : list Effect) : list (nat * string) :=
  omap (fun eff => match eff with
                   | PostMessage w action => Some (w, action)
                   | _ => None
                   end) out.

Definition dispatched (out : list Effect) : list string :=
  omap (fun eff => match eff with
                   | DispatchWindowEvent type => Some type
                   | _ => None
                   end) out.

(** Statement completion: a value, or a thrown [Error]. *)
Inductive Completion (A : Type) :=
| Normal (a : A)
| Throw (message : string).
Arguments Normal {A} a.
Arguments Throw {A} message.

End Page.

(** ** [src/js/serviceWorkerManager.js] *)
Module SWManager.
Import Page.

(** The fields of the instance, and the listeners its [init] has attached:
    the number of "updatefound" listeners on the registration and the
    workers carrying a "statechange" listener, in attachment order. *)
Record ServiceWorkerManager := mkManager
  { sw : option nat;
    newSw : option nat;
    filePath : string;
    options : option string;
    updatefound_listeners : nat;
    statechange_listeners : list nat }.

Definition constructor (filePath : string) (options : option string)
  : ServiceWorkerManager :=
  {| sw := None; newSw := None; filePath := filePath; options := options;
     updatefound_listeners := 0; statechange_listeners := [] |}.

(** What the browser delivers to the instance. *)
Inductive Event :=
| RegisterResolved (reg : nat)
| RegisterRejected (err : string)
| UpdateFound
| StateChange (worker : nat).

(** [init()]: [{ scope: "/", ...this.options }]. *)
Definition init (env : Env) (m : ServiceWorkerManager) : list Effect :=
  if has_serviceWorker env
  then [Register (filePath m) (default "/" (options m))]
  else [].

(** The "statechange" listener. *)
Definition on_statechange (env : Env) (m : ServiceWorkerManager) : list Effect :=
  match newSw m with
  | None => [Uncaught "TypeError"]
  | Some w =>
      ConsoleLog (state_name (worker_state env w)) ::
      match worker_state env w with
      | installed =>
          match controller env with
          | Some _ =>
              [PostMessage w "skipWaiting";
               DispatchWindowEvent "updatefound";
               ConsoleLog "[ServiceWorker] New Update Available!"]
          | None => []
          end
      | _ => []
      end
  end.

(** The "updatefound" listener. *)
Definition on_updatefound (env : Env) (m : ServiceWorkerManager)
  : ServiceWorkerManager * list Effect :=
  match reg_installing env with
  | Some w =>
      ({| sw := sw m; newSw := Some w; filePath := filePath m;
          options := options m;
          updatefound_listeners := updatefound_listeners m;
          statechange_listeners := (statechange_listeners m ++ [w])%list |}, [])
  | None =>
      ({| sw := sw m; newSw := None; filePath := filePath m;
          options := options m;
          updatefound_listeners := updatefound_listeners m;
          statechange_listeners := statechange_listeners m |},
       [Uncaught "TypeError"])
  end.

Fixpoint repeat_listener (n : nat) (env : Env) (m : ServiceWorkerManager)
  : ServiceWorkerManager * list Effect :=
  match n with
  | O => (m, [])
  | S k =>
      let '(m1, out1) := on_updatefound env m in
      let '(m2, out2) := repeat_listener k env m1 in
      (m2, (out1 ++ out2)%list)
  end.

Definition step (env : Env) (m : ServiceWorkerManager) (ev : Event)
  : ServiceWorkerManager * list Effect :=
  match ev with
  | RegisterResolved reg =>
      ({| sw := Some reg; newSw := newSw m; filePath := filePath m;
          options := options m;
          updatefound_listeners := S (updatefound_listeners m);
          statechange_listeners := statechange_listeners m |},
       [ConsoleLog "[ServiceWorker] registration successful"])
  | RegisterRejected err =>
      (m, [ConsoleLog "[ServiceWorker] registration failed"; ConsoleError err])
  | UpdateFound => repeat_listener (updatefound_listeners m) env m
  | StateChange w =>
      (m, concat (map (fun _ => on_statechange env m)
                      (filter (fun w' => w' = w) (statechange_listeners m))))
  end.

End SWManager.

(** ** The [PWAManager] class *)
Module PWA.
Import Page.

Inductive Target := Window | Element (el : string) | ServiceWorkerContainer.

(** The listener functions written in [init]. *)
Inductive Handler :=
| OnLoad | OnBeforeInstallPrompt | OnInstallClick | OnUpdateClick
| OnAppInstalled | OnControllerChange | OnUpdateFound.

Record Listener := mkListener
  { l_target : Target; l_type : string; l_handler : Handler }.

#[global] Instance Target_eq_dec : EqDecision Target.
Proof. solve_decision. Defined.

(** The properties of the options object that the constructor reads
    besides the callbacks; an omitted property is [None]. *)
Record Options := mkOptions
  { opt_serviceWorkerPath : option string;
    opt_installButton : option HostValue;
    opt_updateButton : option HostValue }.

(** The argument of the constructor: none (or [undefined]), [null], or a
    value with properties.  A value that has none of the properties, such
    as a number, is [Given] with every property omitted. *)
Inductive Argument := Missing | Null | Given (o : Options).

(** The instance, with the listeners it has attached (in attachment
    order) and the install clicks suspended at [await userChoice]. *)
Record PWAManager := mkPWA
  { serviceWorkerPath : string;
    deferredPrompt : option nat;
    refreshing : bool;
    installButton : HostValue;
    updateButton : HostValue;
    swManager : option SWManager.ServiceWorkerManager;
    listeners : list Listener;
    awaiting : list nat }.

Definition is_HTMLElement (v : HostValue) : bool :=
  match v with VElement _ => true | _ => false end.

Definition is_null (v : HostValue) : bool :=
  match v with VNull => true | _ => false end.


(** The body of the constructor, once the parameter is destructured. *)
Definition construct (env : Env) (o : Options) : Completion PWAManager :=
  let installButton := default VNull (opt_installButton o) in
  let updateButton := default VNull (opt_updateButton o) in
  if negb (is_null installButton) && negb (is_HTMLElement installButton)
  then Throw "installButton must be an HTMLElement"
  else if negb (is_null updateButton) && negb (is_HTMLElement updateButton)
  then Throw "updateButton must be an HTMLElement"
  else if negb (has_serviceWorker env)
  then Throw "ServiceWorker is not supported in this browser"
  else Normal
    {| serviceWorkerPath := default "./sw.js" (opt_serviceWorkerPath o);
       deferredPrompt := None; refreshing := false;
       installButton := installButton; updateButton := updateButton;
       swManager := None; listeners := []; awaiting := [] |}.

(** [new PWAManager(argument)].  The parameter is a destructuring pattern
    without a default: of [undefined] and of [null] nothing can be
    destructured, and the call throws a [TypeError] before the body
    runs. *)
Definition constructor (env : Env) (a : Argument) : Completion PWAManager :=
  match a with
  | Missing => Throw "TypeError: Cannot destructure 'undefined'"
  | Null => Throw "TypeError: Cannot destructure 'null'"
  | Given o => construct env o
  end.

Definition set_deferredPrompt (v : option nat) (p : PWAManager) : PWAManager :=
  {| serviceWorkerPath := serviceWorkerPath p; deferredPrompt := v;
     refreshing := refreshing p; installButton := installButton p;
     updateButton := updateButton p; swManager := swManager p;
     listeners := listeners p; awaiting := awaiting p |}.

Definition set_refreshing (v : bool) (p : PWAManager) : PWAManager :=
  {| serviceWorkerPath := serviceWorkerPath p; deferredPrompt := deferredPrompt p;
     refreshing := v; installButton := installButton p;
     updateButton := updateButton p; swManager := swManager p;
     listeners := listeners p; awaiting := awaiting p |}.

Definition set_swManager (v : option SWManager.ServiceWorkerManager)
  (p : PWAManager) : PWAManager :=
  {| serviceWorkerPath := serviceWorkerPath p; deferredPrompt := deferredPrompt p;
     refreshing := refreshing p; installButton := installButton p;
     updateButton := updateButton p; swManager := v;
     listeners := listeners p; awaiting := awaiting p |}.

Definition set_awaiting (v : list nat) (p : PWAManager) : PWAManager :=
  {| serviceWorkerPath := serviceWorkerPath p; deferredPrompt := deferredPrompt p;
     refreshing := refreshing p; installButton := installButton p;
     updateButton := updateButton p; swManager := swManager p;
     listeners := listeners p; awaiting := v |}.

Definition addEventListener (t : Target) (type : string) (h : Handler)
  (p : PWAManager) : PWAManager :=
  {| serviceWorkerPath := serviceWorkerPath p; deferredPrompt := deferredPrompt p;
     refreshing := refreshing p; installButton := installButton p;
     updateButton := updateButton p; swManager := swManager p;
     listeners := (listeners p ++ [mkListener t type h])%list;
     awaiting := awaiting p |}.

(** How many calls of [controllerChange] the guard flag still allows. *)
Definition budget (p : PWAManager) : nat := if refreshing p then 0 else 1.

(** [init()]. *)
Definition init (env : Env) (p : PWAManager)
  : Completion PWAManager * list Effect :=
  if has_serviceWorker env then
    let m := SWManager.constructor (serviceWorkerPath p) None in
    let p1 := set_swManager (Some m) p in
    let p2 := addEventListener Window "load" OnLoad p1 in
    let p3 := addEventListener ServiceWorkerContainer "controllerChange"
                OnControllerChange p2 in
    let p4 := addEventListener Window "updatefound" OnUpdateFound p3 in
    (Normal p4, SWManager.init env m)
  else (Throw "ServiceWorker is not supported in this browser", []).

(** [new PWAManager(argument).init()]. *)
Definition launch (env : Env) (a : Argument)
  : Completion PWAManager * list Effect :=
  match constructor env a with
  | Normal p => init env p
  | Throw msg => (Throw msg, [])
  end.

(** The "load" listener.  Its third statement reads the free name
    [updateButton], looked up in the global scope. *)
Definition on_load (env : Env) (p : PWAManager) : PWAManager * list Effect :=
  let p1 := addEventListener Window "beforeInstallPrompt" OnBeforeInstallPrompt p in
  let p2 := match installButton p1 with
            | VElement el => addEventListener (Element el) "click" OnInstallClick p1
            | _ => p1
            end in
  let finish q := (addEventListener Window "appInstalled" OnAppInstalled q, []) in
  match updateButton p2 with
  | VElement _ =>
      match global_updateButton env with
      | None => (p2, [Uncaught "ReferenceError: updateButton is not defined"])
      | Some (VElement g) =>
          finish (addEventListener (Element g) "click" OnUpdateClick p2)
      | Some _ => (p2, [Uncaught "TypeError"])
      end
  | _ => finish p2
  end.

(** One listener, called with the event [e].  A listener ends at the
    statement that throws: what it has done so far stays done, and the
    statements after it do not run. *)
Definition run_handler (env : Env) (h : Handler) (e : nat) (p : PWAManager)
  : PWAManager * list Effect :=
  match h with
  | OnLoad => on_load env p
  | OnBeforeInstallPrompt =>
      match host_throws env BeforeInstallPrompt with
      | None =>
          (set_deferredPrompt (Some e) p,
           [PreventDefault e; CallHost BeforeInstallPrompt e;
            ConsoleLog "Prompted user to install"])
      | Some err =>
          (set_deferredPrompt (Some e) p,
           [PreventDefault e; CallHost BeforeInstallPrompt e; Uncaught err])
      end
  | OnInstallClick =>
      match deferredPrompt p with
      | Some d => (set_awaiting (awaiting p ++ [d])%list p, [Prompt d])
      | None => (p, [UnhandledRejection "TypeError"])
      end
  | OnUpdateClick => (p, [Reload])
  | OnAppInstalled =>
      match host_throws env AppInstalled with
      | None =>
          (set_deferredPrompt None p,
           [CallHost AppInstalled e; ConsoleLog "PWA was installed"])
      | Some err => (p, [CallHost AppInstalled e; Uncaught err])
      end
  | OnControllerChange =>
      if refreshing p then (p, [])
      else match host_throws env ControllerChange with
           | None => (set_refreshing true p, [CallHost ControllerChange e])
           | Some err => (p, [CallHost ControllerChange e; Uncaught err])
           end
  | OnUpdateFound => (p, [ConsoleLog "New Update Available!"])
  end.

Fixpoint run_listeners (env : Env) (ls : list Listener) (e : nat) (p : PWAManager)
  : PWAManager * list Effect :=
  match ls with
  | [] => (p, [])
  | l :: rest =>
      let '(p1, out1) := run_handler env (l_handler l) e p in
      let '(p2, out2) := run_listeners env rest e p1 in
      (p2, (out1 ++ out2)%list)
  end.

(** [target.dispatchEvent]: the listeners attached to [t] for [type] when
    the dispatch starts, in attachment order. *)
Definition dispatch (env : Env) (t : Target) (type : string) (e : nat)
  (p : PWAManager) : PWAManager * list Effect :=
  run_listeners env
    (filter (fun l => l_target l = t /\ l_type l = type) (listeners p)) e p.

(** The continuation of an install click after [await userChoice]. *)
Definition resume_click (outcome : string) (p : PWAManager)
  : PWAManager * list Effect :=
  (set_deferredPrompt None p,
   [ConsoleLog ("User response to the install prompt: " ++ outcome)]).

Fixpoint resume_all (outcome : string) (n : nat) (p : PWAManager)
  : PWAManager * list Effect :=
  match n with
  | O => (p, [])
  | S k =>
      let '(p1, out1) := resume_click outcome p in
      let '(p2, out2) := resume_all outcome k p1 in
      (p2, (out1 ++ out2)%list)
  end.

(** The event object of a [CustomEvent] dispatched by the page itself. *)
Definition custom_event : nat := 0.

(** The effects of the service worker manager, in order; an event it
    dispatches on the window runs the window's listeners on the spot. *)
Fixpoint deliver (env : Env) (out : list Effect) (p : PWAManager)
  : PWAManager * list Effect :=
  match out with
  | [] => (p, [])
  | eff :: rest =>
      let '(p1, out1) :=
        match eff with
        | DispatchWindowEvent type => dispatch env Window type custom_event p
        | _ => (p, [])
        end in
      let '(p2, out2) := deliver env rest p1 in
      (p2, eff :: (out1 ++ out2)%list)
  end.

(** What happens on the page. *)
Inductive PageEvent :=
| Dom (t : Target) (type : string) (e : nat)
| UserChoice (prompt : nat) (outcome : string)
| Worker (ev : SWManager.Event).

Definition step (env : Env) (p : PWAManager) (ev : PageEvent)
  : PWAManager * list Effect :=
  match ev with
  | Dom t type e => dispatch env t type e p
  | UserChoice d outcome =>
      let waiting := filter (fun d' => d' = d) (awaiting p) in
      resume_all outcome (length waiting)
        (set_awaiting (filter (fun d' => d' <> d) (awaiting p)) p)
  | Worker ev =>
      match swManager p with
      | Some m =>
          let '(m', out) := SWManager.step env m ev in
          deliver env out (set_swManager (Some m') p)
      | None => (p, [])
      end
  end.

Fixpoint run (p : PWAManager) (evs : list (Env * PageEvent))
  : PWAManager * list Effect :=
  match evs with
  | [] => (p, [])
  | (env, ev) :: rest =>
      let '(p1, out1) := step env p ev in
      let '(p2, out2) := run p1 rest in
      (p2, (out1 ++ out2)%list)
  end.

End PWA.

(** ** Concrete runs used below *)
Module Scenarios.
Import Platform SW.

(** A GET of a path of the site, without headers. *)
Definition get (path : string) : Request := mkRequest "GET" (origin ++ path) [].

Definition offline_page : Response := mkResponse 200 [] "<h1>offline</h1>".

Definition saved : Response := mkResponse 200 [] "saved".
Definition not_found : Response := mkResponse 404 [] "not found".
Definition partial : Response := mkResponse 206 [] "bytes 0-99".
Definition english_page : Response :=
  mkResponse 200 ["accept-language"] "<h1>Hello</h1>".

Definition post_save : Request := mkRequest "POST" (origin ++ "/api/save") [].
Definition get_missing : Request := get "/missing".
Definition get_clip : Request := get "/clip.mp4".

(** The page, asked for in a language. *)
Definition page_in (lang : string) : Request :=
  mkRequest "GET" (origin ++ "/page") [("Accept-Language", lang)].

(** A network that serves the offline page, answers a POST to [/api/save]
    with 200, a GET of [/missing] with 404, a GET of [/clip.mp4] with
    206 and a GET of [/page] that asks for English with a page that
    varies with the language, and fails on anything else. *)
Definition online : Network := fun r =>
  if bool_decide (r = get "/offline.html") then Some offline_page
  else if bool_decide (r = post_save) then Some saved
  else if bool_decide (r = get_missing) then Some not_found
  else if bool_decide (r = get_clip) then Some partial
  else if bool_decide (r = page_in "en") then Some english_page
  else None.

(** The network once [/missing] exists. *)
Definition found : Response := mkResponse 200 [] "found".

Definition recovered : Network := fun r =>
  if bool_decide (r = get_missing) then Some found else online r.

(** The storage after the deployed worker has installed on an empty
    origin. *)
Definition installed_storage : CacheStorage :=
  (install deployed online []).1.2.

(** Two caches that hold the same URL, the older one under another name. *)
Definition two_generations : CacheStorage :=
  [("legacy", [(get "/app.js", mkResponse 200 [] "old")]);
   ("v0.0.0", [(get "/app.js", mkResponse 200 [] "new")])].

(** The storage the deployed worker starts serving from. *)
Definition serving_storage : CacheStorage :=
  (activate deployed offline installed_storage).1.2.

(** The storage once the worker has served the page in English. *)
Definition localized_storage : CacheStorage :=
  (on_fetch deployed (page_in "en") online serving_storage).1.2.

(** The storage once the worker has served [/missing]. *)
Definition missing_storage : CacheStorage :=
  (on_fetch deployed get_missing online installed_storage).1.2.


(** A deployment of the same generation that also precaches [/missing]. *)
Definition extended : Config :=
  {| cacheName := "v0.0.0"; keepExtra := [];
     defaultResponseURL := "/offline.html"; preCacheExtra := ["/missing"];
     parse_url := at_root |}.



(** A page that a worker already controls, while worker 2 installs and
    then waits in the "installed" state. *)
Definition updating : Page.Env :=
  Page.mkEnv true (Some 1) (fun _ => Page.installed) (Some 2) None
    (fun _ => None).

(** The same moment on a page that no worker controls yet. *)
Definition first_visit : Page.Env :=
  Page.mkEnv true None (fun _ => Page.installed) (Some 2) None
    (fun _ => None).

(** A manager whose registration resolved and found an update. *)
Definition watching (env : Page.Env) : SWManager.ServiceWorkerManager :=
  let m0 := SWManager.constructor "./sw.js" None in
  let m1 := (SWManager.step env m0 (SWManager.RegisterResolved 0)).1 in
  (SWManager.step env m1 SWManager.UpdateFound).1.

(** A page with an install button, launched and loaded. *)
Definition with_install_button : PWA.Options :=
  PWA.mkOptions None (Some (Page.VElement "install-button")) None.

Definition loaded_page : PWA.PWAManager :=
  match (PWA.launch updating (PWA.Given with_install_button)).1 with
  | Page.Normal p => (PWA.step updating p (PWA.Dom PWA.Window "load" 0)).1
  | Page.Throw _ =>
      PWA.mkPWA "" None false Page.VNull Page.VNull None [] []
  end.

(** The update after next: worker 2 has taken over and is activated,
    worker 3 has been found and waits in the "installed" state. *)
Definition second_update : Page.Env :=
  Page.mkEnv true (Some 2)
    (fun w => if Nat.eqb w 3 then Page.installed else Page.activated)
    (Some 3) None (fun _ => None).

(** A manager that has found both workers, one after the other. *)
Definition watching_both : SWManager.ServiceWorkerManager :=
  (SWManager.step second_update (watching updating) SWManager.UpdateFound).1.

(** The moment of [updating] on a page whose [controllerChange] callback
    throws. *)
Definition throwing : Page.Env :=
  Page.mkEnv true (Some 1) (fun _ => Page.installed) (Some 2) None
    (fun cb => match cb with
               | Page.ControllerChange => Some "Error: host"
               | _ => None
               end).

(** The controller-change signal delivered twice, as events 5 and 6. *)
Definition two_signals : list (Page.Env * PWA.PageEvent) :=
  [(updating, PWA.Dom PWA.ServiceWorkerContainer "controllerChange" 5);
   (updating, PWA.Dom PWA.ServiceWorkerContainer "controllerChange" 6)].

(** The same two signals on the page whose callback throws. *)
Definition two_failed_signals : list (Page.Env * PWA.PageEvent) :=
  [(throwing, PWA.Dom PWA.ServiceWorkerContainer "controllerChange" 5);
   (throwing, PWA.Dom PWA.ServiceWorkerContainer "controllerChange" 6)].

(** The same signal under the name the browser gives it. *)
Definition browser_signal : list (Page.Env * PWA.PageEvent) :=
  [(updating, PWA.Dom PWA.ServiceWorkerContainer "controllerchange" 5)].

(** The registration resolves, an update is found and the new worker
    reaches the "installed" state. *)
Definition update_arrives : list (Page.Env * PWA.PageEvent) :=
  [(updating, PWA.Worker (SWManager.RegisterResolved 0));
   (updating, PWA.Worker SWManager.UpdateFound);
   (updating, PWA.Worker (SWManager.StateChange 2))].


(** The page once an event of type "beforeInstallPrompt" (event 7) has been
    dispatched on the window. *)
Definition prompted_page : PWA.PWAManager :=
  (PWA.step updating loaded_page (PWA.Dom PWA.Window "beforeInstallPrompt" 7)).1.

End Scenarios.

(** ** The custom base64 of the worker script

    [sw.js] defines two helpers over the platform's [btoa] and [atob],
    which are modelled after the HTML standard's forgiving base64.  A
    string is a binary string, every character a byte: the domain on which
    [btoa] does not throw. *)
Module Base64.

Definition alphabet : string :=
  "ABCDEFGHIJKLMNOPQRSTUVWXYZabcdefghijklmnopqrstuvwxyz0123456789+/".

Definition pad : ascii := "="%char.

Definition digit (n : N) : ascii :=
  nth (N.to_nat n) (list_ascii_of_string alphabet) pad.

Fixpoint index_of (c : ascii) (l : list ascii) : option N :=
  match l with
  | [] => None
  | x :: rest =>
      if Ascii.eqb x c then Some 0%N else option_map N.succ (index_of c rest)
  end.

Definition value (c : ascii) : option N :=
  index_of c (list_ascii_of_string alphabet).

(** Three bytes give four digits; one or two bytes left over give two or
    three digits and the padding. *)
Fixpoint encode (l : list ascii) : list ascii :=
  match l with
  | [] => []
  | [a] =>
      let x := N_of_ascii a in
      [digit (x / 4); digit ((x mod 4) * 16); pad; pad]
  | [a; b] =>
      let x := N_of_ascii a in
      let y := N_of_ascii b in
      [digit (x / 4); digit ((x mod 4) * 16 + y / 16); digit ((y mod 16) * 4); pad]
  | a :: b :: c :: rest =>
      let x := N_of_ascii a in
      let y := N_of_ascii b in
      let z := N_of_ascii c in
      digit (x / 4) :: digit ((x mod 4) * 16 + y / 16)
        :: digit ((y mod 16) * 4 + z / 64) :: digit (z mod 64) :: encode rest
  end%N.

(** ASCII whitespace: tab, line feed, form feed, carriage return, space. *)
Definition is_whitespace (c : ascii) : bool :=
  let n := N_of_ascii c in
  ((n =? 9) || (n =? 10) || (n =? 12) || (n =? 13) || (n =? 32))%N.

(** When the length is a multiple of four, one or two padding characters
    at the end are removed. *)
Definition strip_padding (l : list ascii) : list ascii :=
  if (N.of_nat (length l) mod 4 =? 0)%N then
    match rev l with
    | c1 :: c2 :: r =>
        if Ascii.eqb c1 pad
        then if Ascii.eqb c2 pad then rev r else rev (c2 :: r)
        else l
    | _ => l
    end
  else l.

Fixpoint values (l : list ascii) : option (list N) :=
  match l with
  | [] => Some []
  | c :: rest =>
      match value c, values rest with
      | Some v, Some vs => Some (v :: vs)
      | _, _ => None
      end
  end.

(** Four digits give three bytes; of two or three digits left over, the
    bits that do not fill a byte are dropped. *)
Fixpoint bytes (v : list N) : list ascii :=
  match v with
  | s0 :: s1 :: s2 :: s3 :: rest =>
      ascii_of_N (s0 * 4 + s1 / 16) :: ascii_of_N ((s1 mod 16) * 16 + s2 / 4)
        :: ascii_of_N ((s2 mod 4) * 64 + s3) :: bytes rest
  | [s0; s1; s2] =>
      [ascii_of_N (s0 * 4 + s1 / 16); ascii_of_N ((s1 mod 16) * 16 + s2 / 4)]
  | [s0; s1] => [ascii_of_N (s0 * 4 + s1 / 16)]
  | _ => []
  end%N.

(** Forgiving decoding: whitespace is removed, then the padding; a length
    of one more than a multiple of four, or a character outside the
    alphabet, is a failure. *)
Definition decode (l : list ascii) : option (list ascii) :=
  let d := strip_padding (List.filter (fun c => negb (is_whitespace c)) l) in
  if (N.of_nat (length d) mod 4 =? 1)%N then None
  else option_map bytes (values d).

Definition btoa (data : string) : string :=
  string_of_list_ascii (encode (list_ascii_of_string data)).

(** [None] is the [InvalidCharacterError] that [atob] throws. *)
Definition atob (data : string) : option string :=
  option_map string_of_list_ascii (decode (list_ascii_of_string data)).

(** [data.replace(/c/g, d)] for a pattern of one character. *)
Fixpoint replace_all (from to : ascii) (data : string) : string :=
  match data with
  | EmptyString => EmptyString
  | String c rest =>
      String (if Ascii.eqb c from then to else c) (replace_all from to rest)
  end.

(** [const catob = (data) => atob(data.replace(/\_/g, '+'))]. *)
Definition catob (data : string) : option string :=
  atob (replace_all "_" "+" data).

(** [const cbtoa = (data) => btoa(data).replace(/\+/g, '_')]. *)
Definition cbtoa (data : string) : string :=
  replace_all "+" "_" (btoa data).

(** The digits of an encoding before they are written in the alphabet, and
    its padding. *)
Fixpoint sextets (l : list ascii) : list N :=
  match l with
  | [] => []
  | [a] =>
      let x := N_of_ascii a in [x / 4; (x mod 4) * 16]
  | [a; b] =>
      let x := N_of_ascii a in
      let y := N_of_ascii b in
      [x / 4; (x mod 4) * 16 + y / 16; (y mod 16) * 4]
  | a :: b :: c :: rest =>
      let x := N_of_ascii a in
      let y := N_of_ascii b in
      let z := N_of_ascii c in
      x / 4 :: (x mod 4) * 16 + y / 16 :: (y mod 16) * 4 + z / 64 :: z mod 64
        :: sextets rest
  end%N.

Fixpoint padding (l : list ascii) : list ascii :=
  match l with
  | [] => []
  | [_] => [pad; pad]
  | [_; _] => [pad]
  | _ :: _ :: _ :: rest => padding rest
  end.

(** What the proofs need of one digit: it is read back as its number, and
    it is no whitespace, no padding and no underscore. *)
Definition digit_ok (n : N) : bool :=
  match value (digit n) with
  | Some m => (m =? n)%N
  | None => false
  end && negb (is_whitespace (digit n)) && negb (Ascii.eqb (digit n) pad)
  && negb (Ascii.eqb (digit n) "_").

(** One character of [replace_all]. *)
Definition swap (from to c : ascii) : ascii := if Ascii.eqb c from then to else c.

(** The characters [cbtoa] writes. *)
Definition custom_alphabet : string :=
  "ABCDEFGHIJKLMNOPQRSTUVWXYZabcdefghijklmnopqrstuvwxyz0123456789_/=".

Definition in_custom (c : ascii) : bool :=
  existsb (Ascii.eqb c) (list_ascii_of_string custom_alphabet).

End Base64.

(** ** Runs of the service worker manager *)
Module SWManagerRuns.
Import Page SWManager.

(** A sequence of events of the manager, each with what the browser shows
    at its moment. *)
Fixpoint run (m : ServiceWorkerManager) (evs : list (Env * Event))
  : ServiceWorkerManager * list Effect :=
  match evs with
  | [] => (m, [])
  | (env, ev) :: rest =>
      let '(m1, out1) := step env m ev in
      let '(m2, out2) := run m1 rest in
      (m2, (out1 ++ out2)%list)
  end.

Definition is_resolved (ev : Event) : bool :=
  match ev with RegisterResolved _ => true | _ => false end.

Definition is_log (eff : Effect) : bool :=
  match eff with ConsoleLog _ | ConsoleError _ => true | _ => false end.

End SWManagerRuns.

(** ** How the page is wired *)
Module PWAWiring.
Import Page PWA.

(** The event types [init] and the "load" listener listen for. *)
Definition known_types : list string :=
  ["load"; "controllerChange"; "updatefound"; "beforeInstallPrompt"; "click";
   "appInstalled"].

Definition is_element (t : Target) : bool :=
  match t with Element _ => true | _ => false end.

(** Where the source attaches each listener function. *)
Definition wired (l : Listener) : bool :=
  match l_handler l with
  | OnLoad => bool_decide (l_target l = Window /\ l_type l = "load")
  | OnBeforeInstallPrompt =>
      bool_decide (l_target l = Window /\ l_type l = "beforeInstallPrompt")
  | OnInstallClick | OnUpdateClick =>
      is_element (l_target l) && bool_decide (l_type l = "click")
  | OnAppInstalled => bool_decide (l_target l = Window /\ l_type l = "appInstalled")
  | OnControllerChange =>
      bool_decide (l_target l = ServiceWorkerContainer /\ l_type l = "controllerChange")
  | OnUpdateFound => bool_decide (l_target l = Window /\ l_type l = "updatefound")
  end.

Definition well_wired (p : PWAManager) : Prop :=
  Forall (fun l => wired l = true) (listeners p).

(** The target and the type under which each host callback is reached. *)
Definition callback_target (cb : HostCallback) : Target :=
  match cb with
  | ControllerChange => ServiceWorkerContainer
  | _ => Window
  end.

Definition callback_type (cb : HostCallback) : string :=
  match cb with
  | BeforeInstallPrompt => "beforeInstallPrompt"
  | AppInstalled => "appInstalled"
  | ControllerChange => "controllerChange"
  end.

(** No listener for the update button's click or for "appInstalled". *)
Definition update_unwired (p : PWAManager) : Prop :=
  Forall (fun l => l_handler l <> OnUpdateClick /\ l_handler l <> OnAppInstalled)
    (listeners p).

(** The effects the service worker manager can have. *)
Definition manager_effect (eff : Effect) : bool :=
  match eff with
  | ConsoleLog _ | ConsoleError _ | PostMessage _ _ | Uncaught _ => true
  | DispatchWindowEvent type => bool_decide (type = "updatefound")
  | _ => false
  end.

(** The effects only the update button's click and "appInstalled" have. *)
Definition update_effect (eff : Effect) : bool :=
  match eff with
  | Reload | CallHost AppInstalled _ => true
  | _ => false
  end.


Definition is_call (cb : HostCallback) (eff : Effect) : bool :=
  match eff with CallHost c _ => bool_decide (c = cb) | _ => false end.

(** The listener function that calls the host callback [cb]. *)
Definition callback_handler (cb : HostCallback) : Handler :=
  match cb with
  | BeforeInstallPrompt => OnBeforeInstallPrompt
  | AppInstalled => OnAppInstalled
  | ControllerChange => OnControllerChange
  end.

Definition is_dom (t : Target) (type : string) (ev : PageEvent) : bool :=
  match ev with
  | Dom t' type' _ => bool_decide (t' = t /\ type' = type)
  | _ => false
  end.

(** The listeners that an event of type "controllerChange" on
    [navigator.serviceWorker] runs. *)
Definition controller_listeners (p : PWAManager) : list Listener :=
  filter (fun l => l_target l = ServiceWorkerContainer /\ l_type l = "controllerChange")
    (listeners p).

(** The page before the first controller change: the flag is down and the
    one listener of [init] is in place. *)
Definition guarded (p : PWAManager) : Prop :=
  well_wired p /\ refreshing p = false /\
  controller_listeners p =
    [mkListener ServiceWorkerContainer "controllerChange" OnControllerChange].

(** The listeners that an event of type "updatefound" on the window
    runs. *)
Definition update_listeners (p : PWAManager) : list Listener :=
  filter (fun l => l_target l = Window /\ l_type l = "updatefound") (listeners p).

(** The page has its service worker manager and hears its announcements
    with the one listener of [init]. *)
Definition listening (p : PWAManager) : Prop :=
  update_listeners p = [mkListener Window "updatefound" OnUpdateFound] /\
  is_Some (swManager p).

(** The manager's effects as the page has them: each announcement is
    followed by the log line of the page's listener. *)
Definition heard (out : list Effect) : list Effect :=
  flat_map (fun eff =>
              match eff with
              | DispatchWindowEvent type =>
                  if bool_decide (type = "updatefound")
                  then [eff; ConsoleLog "New Update Available!"]
                  else [eff]
              | _ => [eff]
              end) out.

End PWAWiring.

(** ** More concrete runs *)
Module MoreScenarios.
Import Platform SW Page Scenarios.

(** Three bytes whose encoding ends in a plus sign. *)
Definition plus_bytes : string := ">>>".

(** What the browser delivers to a manager whose registration failed. *)
Definition quiet_events : list (Env * SWManager.Event) :=
  [(updating, SWManager.RegisterRejected "SecurityError");
   (updating, SWManager.UpdateFound);
   (updating, SWManager.StateChange 2)].

(** The registration resolves, an update is found and installed. *)
Definition handshake_events : list (Env * SWManager.Event) :=
  [(updating, SWManager.RegisterResolved 0);
   (updating, SWManager.UpdateFound);
   (updating, SWManager.StateChange 2)].

(** A page with both buttons. *)
Definition with_both_buttons : PWA.Options :=
  PWA.mkOptions None (Some (VElement "install-button"))
    (Some (VElement "update-button")).

(** The page that [new PWAManager(o).init()] leaves. *)
Definition launched (o : PWA.Options) : PWA.PWAManager :=
  match (PWA.launch updating (PWA.Given o)).1 with
  | Normal p => p
  | Throw _ => PWA.mkPWA "" None false VNull VNull None [] []
  end.

(** The page loads, and both buttons are clicked before any other event. *)
Definition early_clicks : list (Env * PWA.PageEvent) :=
  [(updating, PWA.Dom PWA.Window "load" 0);
   (updating, PWA.Dom (PWA.Element "install-button") "click" 1);
   (updating, PWA.Dom (PWA.Element "update-button") "click" 2);
   (updating, PWA.Dom PWA.Window "appInstalled" 3);
   (updating, PWA.Dom PWA.ServiceWorkerContainer "controllerchange" 4)].

End MoreScenarios.

(** ** Facts about the browser model *)
Module PlatformFacts.
Import Platform.

Lemma is_get_request_of_url parse u : is_get (request_of_url parse u) = true.
Proof. reflexivity. Qed.

Lemma put_accepts_get r resp : put_accepts r resp = true -> is_get r = true.
Proof.
  unfold put_accepts. intros H.
  apply andb_prop in H as [H _]. apply andb_prop in H as [H _]. exact H.
Qed.


Lemma addAll_accepts_vary resp :
  addAll_accepts resp = true -> resp_vary_all resp = false.
Proof.
  unfold addAll_accepts. intros H. apply andb_prop in H as [_ H].
  apply negb_true_iff in H. exact H.
Qed.

Lemma same_url_refl r : same_url r r = true.
Proof. unfold same_url. apply bool_decide_eq_true_2. reflexivity. Qed.

Lemma same_url_sym r1 r2 : same_url r1 r2 = same_url r2 r1.
Proof. unfold same_url. apply bool_decide_ext. split; intros H; symmetry; exact H. Qed.

Lemma same_url_trans r1 r2 r3 :
  same_url r1 r2 = true -> same_url r2 r3 = true -> same_url r1 r3 = true.
Proof.
  unfold same_url. rewrite !bool_decide_eq_true. intros -> ->. reflexivity.
Qed.

(** A request matches the pair it is stored in, unless the response
    carries [Vary: *]. *)
Lemma request_matches_self r resp :
  is_get r = true -> resp_vary_all resp = false ->
  request_matches r (r, resp) = true.
Proof.
  intros Hg Hv. unfold request_matches, vary_agrees. simpl.
  rewrite Hg, same_url_refl, Hv. simpl.
  apply forallb_forall. intros f _. apply bool_decide_eq_true_2. reflexivity.
Qed.

Lemma request_matches_url q e : request_matches q e = true -> same_url q e.1 = true.
Proof.
  unfold request_matches. intros H. apply andb_prop in H as [H _].
  apply andb_prop in H as [_ H]. exact H.
Qed.

(** For requests built from strings the [Vary] check is void: they carry
    no header. *)
Lemma request_matches_plain q r resp :
  req_headers q = [] -> req_headers r = [] -> is_get r = true ->
  resp_vary_all resp = false ->
  request_matches q (r, resp) = same_url q r.
Proof.
  intros Hq Hr Hg Hv. unfold request_matches, vary_agrees. simpl.
  rewrite Hg, Hv, Hq, Hr. simpl.
  replace (forallb _ _) with true; [apply andb_true_r|].
  symmetry. apply forallb_forall. intros f _.
  first [reflexivity | apply bool_decide_eq_true_2; reflexivity].
Qed.

Lemma cache_match_nil r : cache_match [] r = None.
Proof. unfold cache_match. destruct (is_get r); reflexivity. Qed.

Lemma cache_match_app (c1 c2 : Cache) r :
  cache_match (c1 ++ c2) r =
  match cache_match c1 r with
  | Some resp => Some resp
  | None => cache_match c2 r
  end.
Proof.
  unfold cache_match, query_cache. destruct (is_get r); [|reflexivity].
  rewrite List.filter_app. destruct (List.filter _ c1) as [|e l]; reflexivity.
Qed.

Lemma cache_match_Some (c : Cache) r resp :
  cache_match c r = Some resp ->
  is_get r = true /\
  exists stored, In (stored, resp) c /\ request_matches r (stored, resp) = true.
Proof.
  unfold cache_match, query_cache. destruct (is_get r); [|discriminate].
  destruct (List.filter _ c) as [|[stored resp'] l] eqn:E; [discriminate|].
  intros [= <-]. split; [reflexivity|]. exists stored.
  apply filter_In. rewrite E. left. reflexivity.
Qed.

(** A miss: the request matches no entry. *)
Lemma cache_match_None (c : Cache) r :
  is_get r = true ->
  cache_match c r = None <-> Forall (fun e => request_matches r e = false) c.
Proof.
  intros Hg. unfold cache_match, query_cache. rewrite Hg.
  induction c as [|e c IH]; simpl.
  - split; [constructor | reflexivity].
  - destruct (request_matches r e) eqn:E; simpl.
    + split; [discriminate | intros H; inversion H; congruence].
    + rewrite IH. split; [intros H; constructor; assumption | intros H; inversion H; assumption].
Qed.

Lemma cache_match_hit (c : Cache) r e :
  is_get r = true -> In e c -> request_matches r e = true ->
  is_Some (cache_match c r).
Proof.
  intros Hg Hin He. destruct (cache_match c r) eqn:E; [eauto|].
  apply (cache_match_None c r Hg) in E. rewrite Forall_forall in E.
  apply list_elem_of_In, E in Hin. congruence.
Qed.

Lemma filter_none {A} (f : A -> bool) l :
  Forall (fun x => f x = false) l -> List.filter (fun x => negb (f x)) l = l.
Proof.
  induction 1 as [|x l Hx _ IH]; simpl; [reflexivity|].
  rewrite Hx. simpl. f_equal. exact IH.
Qed.

(** On a miss a put removes nothing. *)
Lemma put_entry_miss r resp (c : Cache) :
  is_get r = true -> cache_match c r = None ->
  put_entry r resp c = (c ++ [(r, resp)])%list.
Proof.
  intros Hg Hm. unfold put_entry. f_equal.
  apply filter_none, (cache_match_None c r Hg), Hm.
Qed.


(** A put for another URL changes no answer. *)
Lemma cache_match_put_entry_other r resp (c : Cache) q :
  same_url q r = false -> cache_match (put_entry r resp c) q = cache_match c q.
Proof.
  intros Hne. unfold cache_match. destruct (is_get q); [|reflexivity].
  unfold put_entry, query_cache. rewrite List.filter_app. simpl.
  assert (Hnew : request_matches q (r, resp) = false).
  { unfold request_matches. simpl. rewrite Hne. rewrite andb_false_r. reflexivity. }
  rewrite Hnew, app_nil_r. f_equal. f_equal.
  induction c as [|e c IH]; simpl; [reflexivity|].
  destruct (request_matches r e) eqn:Er; simpl.
  - destruct (request_matches q e) eqn:Eq; [|exact IH].
    exfalso. apply request_matches_url in Er, Eq.
    rewrite (same_url_sym r) in Er.
    pose proof (same_url_trans _ _ _ Eq Er) as H. congruence.
  - destruct (request_matches q e); [f_equal|]; exact IH.
Qed.

Lemma storage_has_true name (st : CacheStorage) :
  storage_has name st = true <-> is_Some (storage_lookup name st).
Proof. unfold storage_has. apply bool_decide_eq_true. Qed.

Lemma storage_has_false name (st : CacheStorage) :
  storage_has name st = false <-> storage_lookup name st = None.
Proof.
  unfold storage_has. rewrite bool_decide_eq_false.
  rewrite <- eq_None_not_Some. reflexivity.
Qed.

Lemma storage_lookup_app name (st1 st2 : CacheStorage) :
  storage_lookup name (st1 ++ st2) =
  match storage_lookup name st1 with
  | Some c => Some c
  | None => storage_lookup name st2
  end.
Proof.
  induction st1 as [|[n c] st1 IH]; simpl; [reflexivity|].
  case_bool_decide; [reflexivity | exact IH].
Qed.

Lemma storage_lookup_open name (st : CacheStorage) :
  storage_lookup name (storage_open name st) =
  Some (default [] (storage_lookup name st)).
Proof.
  unfold storage_open. destruct (storage_has name st) eqn:E.
  - apply storage_has_true in E as [c Hc]. rewrite Hc. reflexivity.
  - apply storage_has_false in E. rewrite storage_lookup_app, E. simpl.
    rewrite bool_decide_eq_true_2; reflexivity.
Qed.

Lemma storage_lookup_open_ne name n (st : CacheStorage) :
  name <> n -> storage_lookup n (storage_open name st) = storage_lookup n st.
Proof.
  intros Hne. unfold storage_open. destruct (storage_has name st); [reflexivity|].
  rewrite storage_lookup_app. destruct (storage_lookup n st); [reflexivity|].
  simpl. rewrite bool_decide_eq_false_2; auto.
Qed.

Lemma storage_lookup_update_eq name c c0 (st : CacheStorage) :
  storage_lookup name st = Some c0 ->
  storage_lookup name (storage_update name c st) = Some c.
Proof.
  induction st as [|[n c1] st IH]; simpl; [discriminate|].
  case_bool_decide as E; simpl.
  - intros _. rewrite bool_decide_eq_true_2; auto.
  - intros H. rewrite bool_decide_eq_false_2; auto.
Qed.

Lemma storage_lookup_update_ne name n c (st : CacheStorage) :
  name <> n ->
  storage_lookup n (storage_update name c st) = storage_lookup n st.
Proof.
  intros Hne. induction st as [|[n1 c1] st IH]; simpl; [reflexivity|].
  case_bool_decide as E; simpl.
  - subst n1. rewrite !bool_decide_eq_false_2; auto.
  - case_bool_decide; [reflexivity | exact IH].
Qed.

Lemma storage_match_app (st1 st2 : CacheStorage) r :
  storage_match (st1 ++ st2) r =
  match storage_match st1 r with
  | Some resp => Some resp
  | None => storage_match st2 r
  end.
Proof.
  induction st1 as [|[n c] st1 IH]; simpl; [reflexivity|].
  destruct (cache_match c r); [reflexivity | exact IH].
Qed.

(** Opening a cache changes no lookup: a new cache is empty. *)
Lemma storage_match_open name (st : CacheStorage) r :
  storage_match (storage_open name st) r = storage_match st r.
Proof.
  unfold storage_open. destruct (storage_has name st); [reflexivity|].
  rewrite storage_match_app. simpl. rewrite cache_match_nil.
  destruct (storage_match st r); reflexivity.
Qed.

(** What one cache holds, [caches.match] finds in some cache. *)
Lemma storage_match_hit name (st : CacheStorage) c r resp :
  storage_lookup name st = Some c -> cache_match c r = Some resp ->
  is_Some (storage_match st r).
Proof.
  induction st as [|[n c1] st IH]; simpl; [discriminate|].
  case_bool_decide as E.
  - intros [= ->] ->. eauto.
  - intros H1 H2. destruct (cache_match c1 r); eauto.
Qed.

(** A miss of [caches.match] is a miss of every cache. *)
Lemma storage_match_miss name (st : CacheStorage) c r :
  storage_match st r = None -> storage_lookup name st = Some c ->
  cache_match c r = None.
Proof.
  intros Hm Hl. destruct (cache_match c r) as [resp|] eqn:E; [|reflexivity].
  destruct (storage_match_hit _ _ _ _ _ Hl E) as [x Hx]. congruence.
Qed.


(** A cache replaced by one that answers [r] alike changes no lookup of
    [r]. *)
Lemma storage_match_update_same name (st : CacheStorage) c c' r :
  storage_lookup name st = Some c -> cache_match c' r = cache_match c r ->
  storage_match (storage_update name c' st) r = storage_match st r.
Proof.
  intros Hl Heq. induction st as [|[n c1] st IH]; simpl in *; [discriminate|].
  case_bool_decide as E; simpl.
  - injection Hl as ->. rewrite Heq. reflexivity.
  - rewrite (IH Hl). reflexivity.
Qed.

Lemma storage_lookup_delete name n (st : CacheStorage) :
  storage_lookup n (storage_delete name st) =
  if bool_decide (n = name) then None else storage_lookup n st.
Proof.
  unfold storage_delete. induction st as [|[n1 c1] st IH]; simpl.
  - case_bool_decide; reflexivity.
  - rewrite filter_cons. simpl. destruct (decide (n1 <> name)) as [Hd|Hd]; simpl.
    + rewrite IH. repeat case_bool_decide; subst; try reflexivity; congruence.
    + apply dec_stable in Hd. subst n1. rewrite IH.
      repeat case_bool_decide; subst; try reflexivity; congruence.
Qed.

Create HintDb storage.
#[export] Hint Resolve storage_lookup_open storage_lookup_update_eq : storage.

(** [fetch_all] answers with what the network gave for each request. *)
Lemma fetch_all_spec net reqs got :
  fetch_all net reqs = Some got ->
  got.*1 = reqs /\
  Forall (fun p => net p.1 = Some p.2 /\ addAll_accepts p.2 = true) got.
Proof.
  revert got. induction reqs as [|r reqs IH]; simpl; intros got.
  - intros [= <-]. split; [reflexivity | constructor].
  - destruct (net r) as [resp|] eqn:Hn; [|discriminate].
    destruct (addAll_accepts resp) eqn:Ha; [|discriminate].
    destruct (fetch_all net reqs) as [got'|]; [|discriminate].
    intros [= <-]. destruct (IH got' eq_refl) as [H1 H2]. simpl. split.
    + f_equal. exact H1.
    + constructor; [simpl; auto | exact H2].
Qed.


(** One rejected fetch rejects the whole batch. *)
Lemma fetch_all_rejected net reqs r :
  In r reqs -> net r = None -> fetch_all net reqs = None.
Proof.
  induction reqs as [|v reqs IH]; simpl; [tauto|].
  intros [->|Hin] Hn.
  - rewrite Hn. reflexivity.
  - rewrite (IH Hin Hn).
    destruct (net v) as [x|]; [|reflexivity].
    destruct (addAll_accepts x); reflexivity.
Qed.

(** So does one response that [addAll] refuses. *)
Lemma fetch_all_refused net reqs r resp :
  In r reqs -> net r = Some resp ->
  addAll_accepts resp = false -> fetch_all net reqs = None.
Proof.
  induction reqs as [|v reqs IH]; simpl; [tauto|].
  intros [->|Hin] Hn Ha.
  - rewrite Hn, Ha. reflexivity.
  - rewrite (IH Hin Hn Ha).
    destruct (net v) as [x|]; [|reflexivity].
    destruct (addAll_accepts x); reflexivity.
Qed.

(** *** The puts of a batch *)

(** The cache a batch leaves: the old entries that no request of the batch
    matches, then the batch. *)
Lemma put_all_spec batch added (old c' : Cache) :
  put_all batch added (old ++ added) = Some c' ->
  c' = (List.filter (fun e => forallb (fun b => negb (request_matches b.1 e)) batch)
          old ++ added ++ batch)%list.
Proof.
  revert added old. induction batch as [|[r resp] batch IH]; intros added old; simpl.
  - intros [= <-]. rewrite app_nil_r. f_equal. symmetry.
    apply forallb_filter_id. apply forallb_forall. reflexivity.
  - destruct (existsb (request_matches r) added) eqn:Ex; [discriminate|].
    assert (Hadded : List.filter (fun e => negb (request_matches r e)) added = added).
    { apply filter_none. apply Forall_forall. intros e He.
      destruct (request_matches r e) eqn:E; [|reflexivity].
      assert (Ht : existsb (request_matches r) added = true)
        by (apply existsb_exists; exists e; split; [apply list_elem_of_In, He | exact E]).
      congruence. }
    unfold put_entry. rewrite List.filter_app, Hadded, <- app_assoc.
    intros H. apply IH in H. rewrite H, <- app_assoc. simpl. f_equal.
    clear. induction old as [|e old IHo]; simpl; [reflexivity|].
    destruct (request_matches r e); simpl; [exact IHo|].
    destruct (forallb _ batch); [f_equal|]; exact IHo.
Qed.

(** In an accepted batch no request matches a pair added before it. *)
Lemma put_all_distinct batch added (c c' : Cache) l1 e l2 :
  put_all batch added c = Some c' -> batch = (l1 ++ e :: l2)%list ->
  Forall (fun x => request_matches e.1 x = false) (added ++ l1).
Proof.
  revert added c l1. induction batch as [|[r resp] batch IH]; intros added c l1; simpl.
  - intros _ H. destruct l1; discriminate.
  - destruct (existsb (request_matches r) added) eqn:Ex; [discriminate|].
    intros H Hb. destruct l1 as [|x l1]; simpl in Hb.
    + injection Hb as <- _. rewrite app_nil_r. simpl. apply Forall_forall.
      intros y Hy. destruct (request_matches r y) eqn:E; [|reflexivity].
      assert (Ht : existsb (request_matches r) added = true)
        by (apply existsb_exists; exists y; split; [apply list_elem_of_In, Hy | exact E]).
      congruence.
    + injection Hb as <- Hb. specialize (IH _ _ _ H Hb).
      rewrite <- app_assoc in IH. exact IH.
Qed.

(** After an accepted batch, each of its requests is answered with the
    response stored for it. *)
Lemma put_all_answers batch (c c' : Cache) r resp :
  put_all batch [] c = Some c' ->
  Forall (fun e => is_get e.1 = true /\ resp_vary_all e.2 = false) batch ->
  In (r, resp) batch -> cache_match c' r = Some resp.
Proof.
  intros Hp Hok Hin.
  pose proof (put_all_spec batch [] c c') as Hspec.
  rewrite app_nil_r in Hspec. specialize (Hspec Hp). simpl in Hspec. subst c'.
  rewrite Forall_forall in Hok.
  destruct (Hok _ (proj2 (list_elem_of_In _ _) Hin)) as [Hg Hv]. simpl in Hg, Hv.
  apply in_split in Hin as (l1 & l2 & Hb).
  pose proof (put_all_distinct _ _ _ _ _ _ _ Hp Hb) as Hd. simpl in Hd.
  rewrite cache_match_app.
  assert (Hold : cache_match
                   (List.filter
                      (fun e => forallb (fun b => negb (request_matches b.1 e)) batch) c)
                   r = None).
  { apply cache_match_None; [exact Hg|]. apply Forall_forall. intros e He.
    apply list_elem_of_In, filter_In in He as [_ He].
    rewrite forallb_forall in He. specialize (He (r, resp)).
    apply negb_true_iff. apply He. rewrite Hb. apply in_elt. }
  rewrite Hold, Hb, cache_match_app.
  rewrite (proj2 (cache_match_None l1 r Hg) Hd).
  unfold cache_match, query_cache. rewrite Hg. simpl.
  rewrite request_matches_self by assumption. reflexivity.
Qed.

(** A request for a URL that is not in the batch is answered as before. *)
Lemma put_all_frame batch (c c' : Cache) q :
  put_all batch [] c = Some c' ->
  Forall (fun e => same_url q e.1 = false) batch ->
  cache_match c' q = cache_match c q.
Proof.
  intros Hp Hne.
  pose proof (put_all_spec batch [] c c') as Hspec.
  rewrite app_nil_r in Hspec. specialize (Hspec Hp). simpl in Hspec. subst c'.
  unfold cache_match. destruct (is_get q); [|reflexivity].
  unfold query_cache. rewrite List.filter_app.
  assert (Hb : List.filter (request_matches q) batch = []).
  { clear Hp. induction Hne as [|e l He _ IH]; simpl; [reflexivity|].
    unfold request_matches at 1. rewrite He, andb_false_r. simpl. exact IH. }
  rewrite Hb, app_nil_r. f_equal. f_equal.
  clear Hp Hb. induction c as [|e c IH]; simpl; [reflexivity|].
  destruct (forallb _ batch) eqn:Ef; simpl.
  - destruct (request_matches q e); [f_equal|]; exact IH.
  - destruct (request_matches q e) eqn:Eq; [|exact IH]. exfalso.
    apply request_matches_url in Eq.
    assert (Hall : forallb (fun b => negb (request_matches b.1 e)) batch = true).
    { apply forallb_forall. intros b Hb. apply negb_true_iff.
      destruct (request_matches b.1 e) eqn:Eb; [|reflexivity]. exfalso.
      apply request_matches_url in Eb. rewrite Forall_forall in Hne.
      apply list_elem_of_In, Hne in Hb. rewrite (same_url_sym (b.1)) in Eb.
      pose proof (same_url_trans _ _ _ Eq Eb). congruence. }
    congruence.
Qed.

(** The pairs stored under a URL that is not in the batch are the same
    ones, in the same order. *)
Lemma put_all_frame_entries batch (c c' : Cache) q :
  put_all batch [] c = Some c' ->
  Forall (fun e => same_url q e.1 = false) batch ->
  List.filter (fun e => same_url q e.1) c' =
  List.filter (fun e => same_url q e.1) c.
Proof.
  intros Hp Hne.
  pose proof (put_all_spec batch [] c c') as Hspec.
  rewrite app_nil_r in Hspec. specialize (Hspec Hp). simpl in Hspec. subst c'.
  rewrite List.filter_app.
  assert (Hb : List.filter (fun e => same_url q e.1) batch = []).
  { clear Hp. induction Hne as [|e l He _ IH]; simpl; [reflexivity|].
    rewrite He. exact IH. }
  rewrite Hb, app_nil_r.
  clear Hp Hb. induction c as [|e c IH]; simpl; [reflexivity|].
  destruct (forallb _ batch) eqn:Ef; simpl.
  - destruct (same_url q e.1); [f_equal|]; exact IH.
  - destruct (same_url q e.1) eqn:Eq; [|exact IH]. exfalso.
    assert (Hall : forallb (fun b => negb (request_matches b.1 e)) batch = true).
    { apply forallb_forall. intros b Hb. apply negb_true_iff.
      destruct (request_matches b.1 e) eqn:Eb; [|reflexivity]. exfalso.
      apply request_matches_url in Eb. rewrite Forall_forall in Hne.
      apply list_elem_of_In, Hne in Hb. rewrite (same_url_sym (b.1)) in Eb.
      pose proof (same_url_trans _ _ _ Eq Eb). congruence. }
    congruence.
Qed.


End PlatformFacts.

(** ** The worker script: install, activate, fetch *)
Module SWFacts.
Import Platform SW PlatformFacts.

Section Lists.
Context {A : Type}.

Lemma filter_all (P : A -> Prop) `{forall x, Decision (P x)} (l : list A) :
  Forall P l -> filter P l = l.
Proof.
  induction 1 as [|x l Hx _ IH]; [reflexivity|].
  rewrite filter_cons_True by exact Hx. f_equal. exact IH.
Qed.

Lemma filter_ext_elem (P Q : A -> Prop)
  `{forall x, Decision (P x)} `{forall x, Decision (Q x)} (l : list A) :
  (forall x, In x l -> P x <-> Q x) -> filter P l = filter Q l.
Proof.
  induction l as [|x l IH]; intros Hext; [reflexivity|].
  assert (Hl : filter P l = filter Q l)
    by (apply IH; intros y Hy; apply Hext; right; exact Hy).
  destruct (decide (P x)) as [Hp|Hp].
  - rewrite !filter_cons_True; [f_equal; exact Hl | | exact Hp].
    apply Hext; [left; reflexivity | exact Hp].
  - rewrite !filter_cons_False; [exact Hl | | exact Hp].
    intros Hq. apply Hp. apply Hext; [left; reflexivity | exact Hq].
Qed.

End Lists.

Lemma indexOf_lower l key : (-1 <= indexOf l key)%Z.
Proof.
  induction l as [|x l IH]; simpl; [lia|].
  case_bool_decide; [lia|].
  destruct (indexOf l key =? -1)%Z eqn:E; lia.
Qed.

(** [indexOf] answers -1 exactly on the keys that are not in the list. *)
Lemma indexOf_absent l key : indexOf l key = (-1)%Z <-> ~ In key l.
Proof.
  induction l as [|x l IH]; simpl; [tauto|].
  case_bool_decide as E.
  - split; [discriminate | intros H; exfalso; apply H; left; exact E].
  - pose proof (indexOf_lower l key) as Hlow.
    destruct (indexOf l key =? -1)%Z eqn:E1.
    + apply Z.eqb_eq in E1. split; [|reflexivity].
      intros _ [Hx|Hin]; [exact (E Hx) | apply IH in E1; exact (E1 Hin)].
    + apply Z.eqb_neq in E1. split; [lia|].
      intros Hn. exfalso. apply E1, IH. intros Hin. apply Hn. right. exact Hin.
Qed.

Lemma promise_all_cons {A} (j : Job A) js net (st st1 st2 : CacheStorage)
  a others sent1 sent2 :
  j net st = (a, st1, sent1) ->
  promise_all js net st1 = (others, st2, sent2) ->
  promise_all (j :: js) net st = (a :: others, st2, (sent1 ++ sent2)%list).
Proof.
  intros H1 H2. cbn [promise_all]. unfold bind. rewrite H1, H2. unfold ret.
  rewrite app_nil_r. reflexivity.
Qed.

Lemma storage_lookup_filter_keep (keep : list string) name (st : CacheStorage) :
  storage_lookup name (filter (fun p => p.1 ∈ keep) st) =
  if decide (name ∈ keep) then storage_lookup name st else None.
Proof.
  induction st as [|[n c] st IH]; simpl.
  - destruct (decide _); reflexivity.
  - rewrite filter_cons. simpl. destruct (decide (n ∈ keep)) as [Hn|Hn]; simpl.
    + case_bool_decide as E; [subst n|exact IH].
      destruct (decide _); [reflexivity | contradiction].
    + rewrite IH. case_bool_decide as E; [subst n|reflexivity].
      destruct (decide _); [contradiction | reflexivity].
Qed.

Lemma storage_keys_update name c (st : CacheStorage) :
  storage_keys (storage_update name c st) = storage_keys st.
Proof.
  unfold storage_keys. induction st as [|[n c0] st IH]; simpl; [reflexivity|].
  case_bool_decide; simpl; [reflexivity | f_equal; exact IH].
Qed.

(** *** The install phase *)
Section Install.
Context (cfg : Config).

Lemma install_unfold net (st : CacheStorage) :
  install cfg net st =
  match cache_addAll (parse_url cfg) net (preCacheURLs cfg)
          (default [] (storage_lookup (cacheName cfg) st)) with
  | Some c' =>
      (Fulfilled, storage_update (cacheName cfg) c' (storage_open (cacheName cfg) st),
       map (new_request cfg) (preCacheURLs cfg))
  | None =>
      (Rejected, storage_open (cacheName cfg) st,
       map (new_request cfg) (preCacheURLs cfg))
  end.
Proof.
  unfold install, bind, caches_open, cache_addAll_in.
  rewrite storage_lookup_open.
  destruct (cache_addAll _ _ _ _); reflexivity.
Qed.

(** The pairs [addAll] fetched for the precache list: each request is a
    GET without headers, and no response carries [Vary: *]. *)
Lemma precache_batch net got :
  fetch_all net (map (new_request cfg) (preCacheURLs cfg)) = Some got ->
  got.*1 = map (new_request cfg) (preCacheURLs cfg) /\
  Forall (fun e => req_headers e.1 = [] /\ is_get e.1 = true /\
                   resp_vary_all e.2 = false) got /\
  Forall (fun e => net e.1 = Some e.2) got.
Proof.
  intros Hf. destruct (fetch_all_spec _ _ _ Hf) as [Hkeys Hgot].
  split; [exact Hkeys|]. split.
  - apply Forall_forall. intros [r resp] He. simpl.
    assert (Hr : In r (map (new_request cfg) (preCacheURLs cfg))).
    { rewrite <- Hkeys. apply in_map_iff. exists (r, resp).
      split; [reflexivity | apply list_elem_of_In, He]. }
    apply in_map_iff in Hr as (u & <- & _).
    rewrite Forall_forall in Hgot. apply Hgot in He as [_ Ha].
    repeat split. apply addAll_accepts_vary, Ha.
  - eapply Forall_impl; [exact Hgot|]. intros e [H _]. exact H.
Qed.



(** A precache URL answered with a response [addAll] refuses (a 404, say)
    fails the install phase as a failed fetch does. *)
Lemma install_rejects_refused net (st : CacheStorage) u resp :
  In u (preCacheURLs cfg) -> net (new_request cfg u) = Some resp ->
  addAll_accepts resp = false ->
  (install cfg net st).1 = (Rejected, storage_open (cacheName cfg) st).
Proof.
  intros Hu Hn Ha. rewrite install_unfold. unfold cache_addAll.
  rewrite (fetch_all_refused net _ (new_request cfg u) resp); [reflexivity | | exact Hn | exact Ha].
  apply in_map. exact Hu.
Qed.

(** A successful install phase leaves the cache of its generation in the
    storage. *)
Lemma install_fulfilled_has_cache net (st : CacheStorage) :
  (install cfg net st).1.1 = Fulfilled ->
  is_Some (storage_lookup (cacheName cfg) (install cfg net st).1.2).
Proof.
  rewrite install_unfold. destruct (cache_addAll _ _ _ _) as [c'|]; [|discriminate].
  intros _. simpl. exists c'. eapply storage_lookup_update_eq, storage_lookup_open.
Qed.

End Install.

(** *** The activate phase *)
Section Activate.
Context (cfg : Config).

Lemma delete_unless_kept_run key net (st : CacheStorage) :
  delete_unless_kept cfg key net st =
  if decide (key ∈ cacheKeepList cfg) then (None, st, [])
  else (Some (storage_has key st), storage_delete key st, []).
Proof.
  unfold delete_unless_kept.
  destruct (indexOf (cacheKeepList cfg) key =? -1)%Z eqn:E.
  - apply Z.eqb_eq, indexOf_absent in E. rewrite <- list_elem_of_In in E.
    destruct (decide _); [contradiction|]. reflexivity.
  - apply Z.eqb_neq in E. destruct (decide _) as [?|Hn]; [reflexivity|].
    rewrite list_elem_of_In in Hn. apply indexOf_absent in Hn. contradiction.
Qed.

(** The deletions of the activate phase, for any list of keys. *)
Lemma activate_deletes net keys (st : CacheStorage) :
  exists answers,
    promise_all (map (delete_unless_kept cfg) keys) net st =
    (answers,
     filter (fun p => p.1 ∈ cacheKeepList cfg \/ p.1 ∉ keys) st, []).
Proof.
  revert st. induction keys as [|k keys IH]; intros st; cbn [map].
  - exists []. cbn [promise_all]. unfold ret. f_equal. f_equal. symmetry.
    apply filter_all, Forall_forall. intros x _. right. apply not_elem_of_nil.
  - pose proof (delete_unless_kept_run k net st) as Hk.
    destruct (decide (k ∈ cacheKeepList cfg)) as [Hin|Hout].
    + destruct (IH st) as [answers Ha].
      exists (None :: answers). rewrite (promise_all_cons _ _ _ _ _ _ _ _ _ _ Hk Ha).
      f_equal. f_equal. apply list_filter_iff. intros [n c]. simpl.
      rewrite not_elem_of_cons. split.
      * intros [H|H]; [left; exact H|].
        destruct (decide (n = k)) as [->|Hne]; [left; exact Hin|]. auto.
      * intros [H|H]; [left; exact H|]. right. tauto.
    + destruct (IH (storage_delete k st)) as [answers Ha].
      eexists. rewrite (promise_all_cons _ _ _ _ _ _ _ _ _ _ Hk Ha).
      f_equal. f_equal. unfold storage_delete. rewrite list_filter_filter.
      apply list_filter_iff. intros [n c]. simpl. rewrite not_elem_of_cons.
      split.
      * intros [[H|H] Hne]; auto.
      * intros [H|H]; [|tauto].
        split; [left; exact H | intros ->; exact (Hout H)].
Qed.

Lemma activate_result net (st : CacheStorage) :
  activate cfg net st =
  (Fulfilled, filter (fun p => p.1 ∈ cacheKeepList cfg) st, []).
Proof.
  unfold activate. unfold bind at 1, caches_keys. unfold bind at 1.
  destruct (activate_deletes net (storage_keys st) st) as [answers ->].
  unfold ret. simpl. f_equal. f_equal.
  apply filter_ext_elem. intros [n c] Hin. simpl. split; [|auto].
  intros [H|H]; [exact H|]. exfalso. apply H.
  unfold storage_keys. apply list_elem_of_fmap. exists (n, c).
  split; [reflexivity | apply list_elem_of_In, Hin].
Qed.

(** C2. Whatever caches exist, the activate phase completes and leaves
    exactly the caches whose name is in the keep list, each with its
    content and in the same order: a cache with any other name is deleted,
    it can no longer be looked up and is no longer listed; a cache of the
    keep list is found as it was. *)
Theorem activate_evicts net (st : CacheStorage) :
  let st' := (activate cfg net st).1.2 in
  (activate cfg net st).1.1 = Fulfilled /\
  st' = filter (fun p => p.1 ∈ cacheKeepList cfg) st /\
  (forall name, name ∉ cacheKeepList cfg ->
     storage_lookup name st' = None /\ name ∉ storage_keys st') /\
  (forall name, name ∈ cacheKeepList cfg ->
     storage_lookup name st' = storage_lookup name st).
Proof.
  rewrite activate_result. simpl. repeat split.
  - rewrite storage_lookup_filter_keep. destruct (decide _); [contradiction|reflexivity].
  - unfold storage_keys. intros Hin.
    apply list_elem_of_fmap in Hin as ([n c] & -> & Hp).
    apply list_elem_of_filter in Hp as [Hk _]. exact (H Hk).
  - intros name Hk. rewrite storage_lookup_filter_keep.
    destruct (decide _); [reflexivity|contradiction].
Qed.

End Activate.

(** *** Serving fetches *)
Section FetchCases.
Context (cfg : Config).

(** The three ways a fetch interception goes. *)
Lemma on_fetch_hit net (st : CacheStorage) r resp :
  storage_match st r = Some resp ->
  on_fetch cfg r net st = (Some resp, st, []).
Proof. intros H. unfold on_fetch, bind, caches_match, ret. rewrite H. reflexivity. Qed.

Lemma on_fetch_fallback net (st : CacheStorage) r :
  storage_match st r = None -> net r = None ->
  on_fetch cfg r net st =
  (storage_match st (new_request cfg (defaultResponseURL cfg)), st, [r]).
Proof.
  intros H Hn. unfold on_fetch, bind, caches_match, fetch. rewrite H, Hn.
  reflexivity.
Qed.

Lemma on_fetch_network net (st : CacheStorage) r resp :
  storage_match st r = None -> net r = Some resp ->
  on_fetch cfg r net st =
  (Some resp,
   if put_accepts r resp
   then storage_update (cacheName cfg)
          (default [] (storage_lookup (cacheName cfg) st) ++ [(r, resp)])
          (storage_open (cacheName cfg) st)
   else storage_open (cacheName cfg) st,
   [r]).
Proof.
  intros H Hn.
  unfold on_fetch, bind, caches_match, fetch, caches_open, cache_put_in, ret.
  rewrite H, Hn, storage_lookup_open. unfold cache_put.
  destruct (put_accepts r resp) eqn:Hp; [|reflexivity].
  rewrite put_entry_miss; [reflexivity | eapply put_accepts_get, Hp |].
  destruct (storage_lookup (cacheName cfg) st) as [c|] eqn:Hl; simpl.
  - eapply storage_match_miss; eassumption.
  - apply cache_match_nil.
Qed.

End FetchCases.

(** Case analysis on an interception: hit, miss answered by the network,
    miss with a failed network. *)
Tactic Notation "fetch_cases" constr(cfg) constr(net) constr(st) constr(r)
  "as" ident(Hm) ident(Hn) :=
  destruct (storage_match st r) eqn:Hm;
  [ rewrite (on_fetch_hit cfg net st r _ Hm)
  | destruct (net r) eqn:Hn;
    [ rewrite (on_fetch_network cfg net st r _ Hm Hn)
    | rewrite (on_fetch_fallback cfg net st r Hm Hn) ] ].

Section Fetch.
Context (cfg : Config).

(** The network is asked at most once per interception, and only for the
    intercepted request. *)
Lemma on_fetch_sent net (st : CacheStorage) r :
  (on_fetch cfg r net st).2 = [] \/ (on_fetch cfg r net st).2 = [r].
Proof. fetch_cases cfg net st r as Hm Hn; auto. Qed.

Lemma storage_match_get (st : CacheStorage) r resp :
  storage_match st r = Some resp -> is_get r = true.
Proof.
  induction st as [|[n c] st IH]; simpl; [discriminate|].
  destruct (cache_match c r) eqn:Hm; [|exact IH].
  intros _. apply cache_match_Some in Hm. tauto.
Qed.



(** C1. After an install phase that succeeded, the cache of the current
    generation holds, for every URL of the precache list, the response the
    network gave at install time, and an interception of that URL with the
    network disabled is answered from the cache, without a network
    request.  If the fetch of one precache URL fails, the install phase
    rejects and the cache of the current generation is left as it was: no
    entry is written. *)
Theorem install_contract net (st : CacheStorage) :
  (forall st' sent, install cfg net st = (Fulfilled, st', sent) ->
     forall u, In u (preCacheURLs cfg) ->
       exists (c : Cache) resp,
         storage_lookup (cacheName cfg) st' = Some c /\
         net (new_request cfg u) = Some resp /\
         cache_match c (new_request cfg u) = Some resp /\
         exists served,
           on_fetch cfg (new_request cfg u) offline st' = (Some served, st', [])) /\
  (forall u, In u (preCacheURLs cfg) -> net (new_request cfg u) = None ->
     (install cfg net st).1.1 = Rejected /\
     (install cfg net st).1.2 = storage_open (cacheName cfg) st /\
     storage_lookup (cacheName cfg) (install cfg net st).1.2 =
       Some (default [] (storage_lookup (cacheName cfg) st))).
Proof.
  split.
  - intros st' sent Hi u Hu. rewrite install_unfold in Hi.
    unfold cache_addAll in Hi.
    change (map (request_of_url (parse_url cfg))) with (map (new_request cfg)) in Hi.
    destruct (fetch_all net (map (new_request cfg) (preCacheURLs cfg)))
      as [got|] eqn:Hf; [|discriminate].
    set (c0 := default [] (storage_lookup (cacheName cfg) st)) in *.
    destruct (put_all got [] c0) as [c'|] eqn:Hp; [|discriminate].
    injection Hi as <- _.
    destruct (precache_batch cfg net got Hf) as (Hkeys & Hplain & Hnet).
    assert (Hin : In (new_request cfg u) got.*1)
      by (rewrite Hkeys; apply in_map, Hu).
    apply in_map_iff in Hin as ([r resp] & Hr & Hin). simpl in Hr. subst r.
    assert (Hresp : net (new_request cfg u) = Some resp).
    { rewrite Forall_forall in Hnet. apply list_elem_of_In, Hnet in Hin. exact Hin. }
    assert (Hc : cache_match c' (new_request cfg u) = Some resp).
    { apply (put_all_answers got c0); [exact Hp | | exact Hin].
      eapply Forall_impl; [exact Hplain|]. intros e (_ & H1 & H2). auto. }
    assert (Hl : storage_lookup (cacheName cfg)
                   (storage_update (cacheName cfg) c'
                      (storage_open (cacheName cfg) st)) = Some c')
      by eauto with storage.
    exists c', resp. repeat split; auto.
    destruct (storage_match_hit _ _ _ (new_request cfg u) resp Hl Hc) as [served Hs].
    exists served. apply on_fetch_hit, Hs.
  - intros u Hu Hn. rewrite install_unfold. unfold cache_addAll.
    rewrite (fetch_all_rejected net _ (new_request cfg u)); [| apply in_map, Hu | exact Hn].
    simpl. repeat split. apply storage_lookup_open.
Qed.


(** What [cache.put] refuses is answered from the network all the same,
    and nothing is stored for it. *)
Lemma write_refused net (st : CacheStorage) r resp :
  storage_match st r = None -> net r = Some resp ->
  put_accepts r resp = false ->
  on_fetch cfg r net st = (Some resp, storage_open (cacheName cfg) st, [r]) /\
  storage_match (storage_open (cacheName cfg) st) r = None.
Proof.
  intros Hm Hn Hp. rewrite (on_fetch_network _ _ _ _ _ Hm Hn), Hp.
  split; [reflexivity|]. rewrite storage_match_open. exact Hm.
Qed.

(** C5. On a miss with a failed network request the handler answers with
    what [caches.match] finds for the offline fallback URL: the cached
    fallback response when there is one, and no response at all (a failed
    fetch for the page) when there is none.  Nothing is written. *)
Theorem offline_fallback net (st : CacheStorage) r :
  storage_match st r = None -> net r = None ->
  (forall page,
     storage_match st (new_request cfg (defaultResponseURL cfg)) = Some page ->
     on_fetch cfg r net st = (Some page, st, [r])) /\
  (storage_match st (new_request cfg (defaultResponseURL cfg)) = None ->
   on_fetch cfg r net st = (None, st, [r])).
Proof.
  intros Hm Hn. rewrite (on_fetch_fallback _ _ _ _ Hm Hn).
  split; [intros page ->|intros ->]; reflexivity.
Qed.

End Fetch.

(** *** Answers that stay *)
Section Stays.
Context (name : string) (r : Request) (resp : Response).









End Stays.

Section Errors.
Context (cfg : Config).


End Errors.

(** *** Which storages a worker serves from *)
Section Lifecycle.
Context (cfg : Config).

Lemma current_oldest_inv (st : CacheStorage) :
  current_oldest cfg st <-> exists c rest, st = (cacheName cfg, c) :: rest.
Proof.
  unfold current_oldest, storage_keys. destruct st as [|[n c] rest]; simpl.
  - split; [discriminate | intros (? & ? & [=])].
  - split; [intros [= ->]; eauto | intros (? & ? & [= -> _ _]); reflexivity].
Qed.

Lemma current_oldest_open name (st : CacheStorage) :
  current_oldest cfg st -> current_oldest cfg (storage_open name st).
Proof.
  intros H. unfold storage_open. destruct (storage_has name st); [exact H|].
  apply current_oldest_inv in H as (c & rest & ->). reflexivity.
Qed.

Lemma current_oldest_update name c (st : CacheStorage) :
  current_oldest cfg st -> current_oldest cfg (storage_update name c st).
Proof. unfold current_oldest. rewrite storage_keys_update. auto. Qed.

(** Activation with nothing but the current generation to keep leaves the
    current generation alone in the storage. *)
Lemma activate_current_oldest net (st : CacheStorage) :
  keepExtra cfg = [] -> is_Some (storage_lookup (cacheName cfg) st) ->
  current_oldest cfg (activate cfg net st).1.2.
Proof.
  intros Hk. rewrite activate_result. unfold cacheKeepList. rewrite Hk. simpl.
  induction st as [|[n c] st IH]; simpl.
  - intros [? [=]].
  - rewrite filter_cons. simpl. case_bool_decide as E.
    + intros _. subst n. rewrite decide_True by (apply list_elem_of_singleton; reflexivity).
      reflexivity.
    + intros H. rewrite decide_False; [exact (IH H)|].
      rewrite list_elem_of_singleton. exact E.
Qed.

(** Serving a request keeps the current generation the oldest cache. *)
Lemma on_fetch_current_oldest net r (st : CacheStorage) :
  current_oldest cfg st -> current_oldest cfg (on_fetch cfg r net st).1.2.
Proof.
  intros H. fetch_cases cfg net st r as Hm Hn; simpl; auto.
  destruct (put_accepts r _);
    auto using current_oldest_update, current_oldest_open.
Qed.

(** So does the install phase of any worker, whatever its generation. *)
Lemma install_current_oldest cfg' net (st : CacheStorage) :
  current_oldest cfg st -> current_oldest cfg (install cfg' net st).1.2.
Proof.
  intros H. rewrite install_unfold. destruct (cache_addAll _ _ _ _); simpl;
    auto using current_oldest_update, current_oldest_open.
Qed.

(** Neither an interception nor an install phase removes a cache. *)
Lemma storage_open_keeps name n (st : CacheStorage) :
  is_Some (storage_lookup n st) -> is_Some (storage_lookup n (storage_open name st)).
Proof.
  intros H. destruct (decide (name = n)) as [->|Hne].
  - rewrite storage_lookup_open. eauto.
  - rewrite storage_lookup_open_ne by exact Hne. exact H.
Qed.

Lemma storage_update_keeps name n c (st : CacheStorage) :
  is_Some (storage_lookup n st) ->
  is_Some (storage_lookup n (storage_update name c st)).
Proof.
  intros H. destruct (decide (name = n)) as [->|Hne].
  - destruct H as [c0 H]. rewrite (storage_lookup_update_eq _ _ _ _ H). eauto.
  - rewrite storage_lookup_update_ne by exact Hne. exact H.
Qed.

Lemma on_fetch_keeps_cache cfg' net r n (st : CacheStorage) :
  is_Some (storage_lookup n st) ->
  is_Some (storage_lookup n (on_fetch cfg' r net st).1.2).
Proof.
  intros H. fetch_cases cfg' net st r as Hm Hn; simpl; auto.
  destruct (put_accepts r _); auto using storage_update_keeps, storage_open_keeps.
Qed.

Lemma install_keeps_cache cfg' net n (st : CacheStorage) :
  is_Some (storage_lookup n st) ->
  is_Some (storage_lookup n (install cfg' net st).1.2).
Proof.
  intros H. rewrite install_unfold. destruct (cache_addAll _ _ _ _); simpl;
    auto using storage_update_keeps, storage_open_keeps.
Qed.

(** A worker that waits to activate has its cache in the storage. *)
Lemma waiting_has_cache (st : CacheStorage) :
  waiting cfg st -> is_Some (storage_lookup (cacheName cfg) st).
Proof.
  induction 1 as [net st Hi|cfg' net r st _ IH|cfg' net st _ IH].
  - apply install_fulfilled_has_cache, Hi.
  - apply on_fetch_keeps_cache, IH.
  - apply install_keeps_cache, IH.
Qed.

(** Hence every storage the worker serves from has the current generation
    as its oldest cache, when nothing but the current generation is kept. *)
Lemma served_by_current_oldest (st : CacheStorage) :
  keepExtra cfg = [] -> served_by cfg st -> current_oldest cfg st.
Proof.
  intros Hk Hs. induction Hs as [net st Hw|net r st _ IH|cfg' net st _ IH].
  - apply activate_current_oldest; [exact Hk|]. apply waiting_has_cache, Hw.
  - apply on_fetch_current_oldest, IH.
  - apply install_current_oldest, IH.
Qed.

(** With the current generation as the oldest cache, what it answers is
    what [caches.match] answers. *)
Lemma cache_first_when_oldest net (st : CacheStorage) (c : Cache) r resp :
  current_oldest cfg st ->
  storage_lookup (cacheName cfg) st = Some c ->
  cache_match c r = Some resp ->
  on_fetch cfg r net st = (Some resp, st, []).
Proof.
  intros Hold Hl Hm. apply on_fetch_hit.
  apply current_oldest_inv in Hold as (c0 & rest & ->). simpl in *.
  rewrite bool_decide_eq_true_2 in Hl by reflexivity.
  injection Hl as ->. rewrite Hm. reflexivity.
Qed.

(** In any storage at all, a request that the cache of the current
    generation answers is answered from some cache, without the network. *)
Lemma cache_first_any_storage net (st : CacheStorage) (c : Cache) r resp :
  storage_lookup (cacheName cfg) st = Some c ->
  cache_match c r = Some resp ->
  exists served, on_fetch cfg r net st = (Some served, st, []).
Proof.
  intros Hl Hm. destruct (storage_match_hit _ _ _ _ _ Hl Hm) as [served Hs].
  exists served. apply on_fetch_hit, Hs.
Qed.

(** C3, as the code has it.  In every storage the worker serves from (its
    install phase has succeeded, its activate phase has evicted every
    other generation, and since then it has served interceptions and
    workers of any generation have installed), a request that the cache
    of the current generation answers is answered with that cached
    response, whatever the network would say: no request goes to the
    network and the storage is left untouched.  The cache answers a GET
    request with the response of the first pair whose request has the
    same URL, fragment aside, and the same value for every header that
    the response names in its [Vary] header. *)
Theorem cache_first_serving net (st : CacheStorage) (c : Cache) r resp :
  keepExtra cfg = [] -> served_by cfg st ->
  storage_lookup (cacheName cfg) st = Some c ->
  (cache_match c r = Some resp ->
   on_fetch cfg r net st = (Some resp, st, [])) /\
  (cache_match c r = Some resp <->
   is_get r = true /\
   exists before stored after,
     c = (before ++ (stored, resp) :: after)%list /\
     Forall (fun e => request_matches r e = false) before /\
     is_get stored = true /\ same_url r stored = true /\
     vary_agrees stored r resp = true).
Proof.
  intros Hk Hs Hl. split.
  - intros Hm. eapply cache_first_when_oldest; eauto.
    apply served_by_current_oldest; assumption.
  - clear. unfold cache_match, query_cache.
    destruct (is_get r); [|split; [discriminate | intros [[=] _]]].
    split.
    + intros Hm. split; [reflexivity|].
      induction c as [|e c IH]; simpl in *; [discriminate|].
      destruct (request_matches r e) eqn:E; simpl in Hm.
      * injection Hm as <-. exists [], e.1, c. destruct e as [stored x]. simpl.
        split; [reflexivity|]. split; [constructor|].
        unfold request_matches in E. simpl in E.
        apply andb_prop in E as [E E3]. apply andb_prop in E as [E1 E2]. auto.
      * destruct (IH Hm) as (before & stored & after & -> & Hb & H3).
        exists (e :: before), stored, after. split; [reflexivity|].
        split; [constructor; assumption | exact H3].
    + intros [_ (before & stored & after & -> & Hb & H1 & H2 & H3)].
      rewrite List.filter_app.
      replace (List.filter (request_matches r) before)
        with (@nil (Request * Response)).
      * simpl. unfold request_matches at 1. simpl. rewrite H1, H2, H3. reflexivity.
      * symmetry. induction Hb as [|e l He _ IH]; simpl; [reflexivity|].
        rewrite He. exact IH.
Qed.

End Lifecycle.

End SWFacts.

(** ** The page side *)
Module PageFacts.
Import Page.

Lemma in_concat_const {A B} (l : list A) (ls : list B) x :
  In x (concat (map (fun _ => l) ls)) <-> ls <> [] /\ In x l.
Proof.
  induction ls as [|b ls IH]; simpl.
  - split; [tauto | intros [H _]; congruence].
  - rewrite in_app_iff, IH. split; [|tauto].
    intros [H|[_ H]]; split; auto; discriminate.
Qed.

Lemma calls_app cb out1 out2 :
  calls cb (out1 ++ out2) = (calls cb out1 ++ calls cb out2)%list.
Proof. apply omap_app. Qed.

Lemma posts_app out1 out2 : posts (out1 ++ out2) = (posts out1 ++ posts out2)%list.
Proof. apply omap_app. Qed.

Lemma dispatched_app out1 out2 :
  dispatched (out1 ++ out2) = (dispatched out1 ++ dispatched out2)%list.
Proof. apply omap_app. Qed.

(** What [k] runs of the same listener post and dispatch. *)
Lemma posts_concat {B} (l : list Effect) (ls : list B) x :
  posts l = x -> posts (concat (map (fun _ => l) ls)) = concat (map (fun _ => x) ls).
Proof.
  intros <-. induction ls as [|b ls IH]; simpl; [reflexivity|].
  rewrite posts_app, IH. reflexivity.
Qed.

Lemma dispatched_concat {B} (l : list Effect) (ls : list B) x :
  dispatched l = x ->
  dispatched (concat (map (fun _ => l) ls)) = concat (map (fun _ => x) ls).
Proof.
  intros <-. induction ls as [|b ls IH]; simpl; [reflexivity|].
  rewrite dispatched_app, IH. reflexivity.
Qed.

Lemma concat_const_nil {A B} (ls : list B) :
  concat (map (fun _ => @nil A) ls) = [].
Proof. induction ls as [|b ls IH]; simpl; [reflexivity | exact IH]. Qed.

Lemma concat_const_one {A B} (x : A) (ls : list B) :
  concat (map (fun _ => [x]) ls) = repeat x (length ls).
Proof. induction ls as [|b ls IH]; simpl; [reflexivity | f_equal; exact IH]. Qed.

End PageFacts.

Module SWManagerFacts.
Import Page SWManager PageFacts.

(** What the "statechange" listener sends, case by case. *)
Lemma on_statechange_update env m w c :
  newSw m = Some w -> worker_state env w = installed -> controller env = Some c ->
  on_statechange env m =
  [ConsoleLog "installed"; PostMessage w "skipWaiting";
   DispatchWindowEvent "updatefound";
   ConsoleLog "[ServiceWorker] New Update Available!"].
Proof. intros Hw Hs Hc. unfold on_statechange. rewrite Hw, Hs, Hc. reflexivity. Qed.

Lemma on_statechange_quiet env m w :
  newSw m = Some w ->
  worker_state env w <> installed \/ controller env = None ->
  on_statechange env m = [ConsoleLog (state_name (worker_state env w))].
Proof.
  intros Hw H. unfold on_statechange. rewrite Hw.
  destruct (worker_state env w); try reflexivity.
  destruct H as [H| ->]; [congruence | reflexivity].
Qed.

Lemma on_statechange_sends env m w :
  newSw m = Some w ->
  let out := on_statechange env m in
  (In (PostMessage w "skipWaiting") out <->
     worker_state env w = installed /\ is_Some (controller env)) /\
  (In (DispatchWindowEvent "updatefound") out <->
     worker_state env w = installed /\ is_Some (controller env)) /\
  (forall w' action, In (PostMessage w' action) out ->
     w' = w /\ action = "skipWaiting").
Proof.
  intros Hw. unfold on_statechange. rewrite Hw. rewrite is_Some_alt.
  destruct (worker_state env w) eqn:Hs; destruct (controller env) as [c|] eqn:Hc;
    cbn [In state_name];
    (split; [|split]);
    try (intros w' action);
    intuition (try discriminate; try congruence).
Qed.

Lemma on_statechange_issues env m :
  posts (on_statechange env m) =
  match newSw m with
  | Some w =>
      if bool_decide (worker_state env w = installed /\ is_Some (controller env))
      then [(w, "skipWaiting")] else []
  | None => []
  end /\
  dispatched (on_statechange env m) =
  match newSw m with
  | Some w =>
      if bool_decide (worker_state env w = installed /\ is_Some (controller env))
      then ["updatefound"] else []
  | None => []
  end.
Proof.
  unfold on_statechange. destruct (newSw m) as [w|]; [|split; reflexivity].
  destruct (decide (worker_state env w = installed /\ is_Some (controller env)))
    as [[Hs [c Hc]]|Hn].
  - rewrite !bool_decide_eq_true_2 by (split; [exact Hs | eauto]).
    rewrite Hs, Hc. split; reflexivity.
  - rewrite !bool_decide_eq_false_2 by exact Hn.
    destruct (worker_state env w) eqn:Hs; try (split; reflexivity).
    destruct (controller env) eqn:Hc; [|split; reflexivity].
    exfalso. apply Hn. split; [reflexivity | eauto].
Qed.

Lemma silent_step env m ev :
  (forall w, ev <> StateChange w) ->
  posts (step env m ev).2 = [] /\ dispatched (step env m ev).2 = [].
Proof.
  intros Hev. destruct ev as [reg|err| |w]; simpl; try (split; reflexivity).
  - generalize (updatefound_listeners m) as n. intros n. revert m.
    induction n as [|n IH]; intros m; simpl; [split; reflexivity|].
    destruct (on_updatefound env m) as [m1 out1] eqn:E1.
    specialize (IH m1). destruct (repeat_listener n env m1) as [m2 out2]. simpl in *.
    rewrite posts_app, dispatched_app. destruct IH as [-> ->].
    unfold on_updatefound in E1.
    destruct (reg_installing env); injection E1 as _ <-; split; reflexivity.
  - exfalso. exact (Hev w eq_refl).
Qed.

(** C6, as the code has it.  When a state change of the worker [changed]
    is delivered, every "statechange" listener that the manager attached
    to that worker runs, and each run posts the skip-waiting message to
    the worker found last ([this.newSw]) and raises "updatefound" on the
    window, once, exactly if the worker found last is in the "installed"
    state and the page has a controller; with no controller (a first
    install) nothing is posted or raised, and no other event of the
    manager posts or raises anything.  So after one registration and one
    update found, the message and the event are issued once, exactly when
    a state change of that worker finds it "installed" on a page with a
    controller. *)
Theorem update_handshake_gating env m changed :
  let k := length (filter (fun w' => w' = changed) (statechange_listeners m)) in
  let out := (step env m (StateChange changed)).2 in
  (forall w, newSw m = Some w ->
     worker_state env w = installed -> is_Some (controller env) ->
     posts out = repeat (w, "skipWaiting") k /\
     dispatched out = repeat "updatefound" k) /\
  ((forall w, newSw m = Some w -> worker_state env w = installed ->
      controller env = None) ->
   posts out = [] /\ dispatched out = []) /\
  (forall ev, (forall w, ev <> StateChange w) ->
     posts (step env m ev).2 = [] /\ dispatched (step env m ev).2 = []) /\
  (forall w, statechange_listeners m = [w] -> newSw m = Some w ->
     posts out =
       (if bool_decide (changed = w /\ worker_state env w = installed /\
                        is_Some (controller env))
        then [(w, "skipWaiting")] else []) /\
     dispatched out =
       (if bool_decide (changed = w /\ worker_state env w = installed /\
                        is_Some (controller env))
        then ["updatefound"] else [])).
Proof.
  cbv zeta. simpl. destruct (on_statechange_issues env m) as [Hp Hd].
  split; [|split; [|split]].
  - intros w Hw Hs Hc. rewrite Hw in Hp, Hd.
    rewrite bool_decide_eq_true_2 in Hp, Hd by auto.
    rewrite (posts_concat _ _ _ Hp), (dispatched_concat _ _ _ Hd).
    rewrite !concat_const_one. auto.
  - intros Hno.
    assert (Hq : posts (on_statechange env m) = [] /\
                 dispatched (on_statechange env m) = []).
    { destruct (newSw m) as [w|]; [|auto].
      rewrite bool_decide_eq_false_2 in Hp, Hd; [auto| |].
      - intros [Hs [c Hc]]. rewrite (Hno w eq_refl Hs) in Hc. discriminate.
      - intros [Hs [c Hc]]. rewrite (Hno w eq_refl Hs) in Hc. discriminate. }
    destruct Hq as [Hp' Hd'].
    rewrite (posts_concat _ _ _ Hp'), (dispatched_concat _ _ _ Hd').
    rewrite !concat_const_nil. auto.
  - intros ev Hev. apply silent_step, Hev.
  - intros w Hl Hw. rewrite Hw in Hp, Hd. rewrite Hl.
    rewrite (posts_concat _ _ _ Hp), (dispatched_concat _ _ _ Hd).
    rewrite filter_cons, filter_nil.
    destruct (decide (w = changed)) as [->|Hne]; simpl.
    + rewrite !app_nil_r.
      destruct (decide (worker_state env changed = installed /\
                        is_Some (controller env))) as [Hy|Hn].
      * rewrite !bool_decide_eq_true_2 by tauto. auto.
      * rewrite !bool_decide_eq_false_2 by tauto. auto.
    + rewrite !bool_decide_eq_false_2; [auto|intros [H _]; congruence].
Qed.

(** No other event of the manager posts a message or raises the event. *)
Lemma other_events_silent env m ev :
  (forall w, ev <> StateChange w) ->
  forall eff, In eff (step env m ev).2 ->
    (forall w action, eff <> PostMessage w action) /\
    (forall type, eff <> DispatchWindowEvent type).
Proof.
  intros Hev eff. destruct ev as [reg|err| |w]; simpl.
  - intros [<-|[]]. split; discriminate.
  - intros [<-|[<-|[]]]; split; discriminate.
  - generalize (updatefound_listeners m) as n. intros n. revert m.
    induction n as [|n IH]; intros m; simpl; [tauto|].
    destruct (on_updatefound env m) as [m1 out1] eqn:E1.
    destruct (repeat_listener n env m1) as [m2 out2] eqn:E2. simpl.
    rewrite in_app_iff. intros [H|H].
    + unfold on_updatefound in E1. destruct (reg_installing env).
      * injection E1 as _ <-. destruct H.
      * injection E1 as _ <-. destruct H as [<-|[]]. split; discriminate.
    + specialize (IH m1). rewrite E2 in IH. apply IH, H.
  - exfalso. exact (Hev w eq_refl).
Qed.

(** The message the page posts is the one the worker acts on. *)
Lemma skip_waiting_understood : SW.on_message "skipWaiting" = [SW.SkipWaiting].
Proof. reflexivity. Qed.

End SWManagerFacts.

Module PWAFacts.
Import Page PWA PWAWiring PageFacts.

Lemma on_load_refreshing env p : refreshing (on_load env p).1 = refreshing p.
Proof.
  unfold on_load. destruct (installButton _), (updateButton _);
    try destruct (global_updateButton env) as [[]|]; reflexivity.
Qed.

Lemma on_load_calls env p cb : calls cb (on_load env p).2 = [].
Proof.
  unfold on_load.
  destruct (updateButton _); try destruct (global_updateButton env) as [[]|];
    reflexivity.
Qed.

(** Case analysis on what a listener reads: whether the host's callback
    throws, whether a prompt is stored, whether the flag is set. *)
Ltac handler_cases :=
  repeat match goal with
  | |- context [match host_throws ?env ?cb with _ => _ end] =>
      destruct (host_throws env cb)
  | |- context [match deferredPrompt ?p with _ => _ end] =>
      destruct (deferredPrompt p) eqn:?
  | |- context [if refreshing ?p then _ else _] =>
      destruct (refreshing p) eqn:?
  end.

Lemma launch_inv env a p out :
  launch env a = (Normal p, out) ->
  exists o,
    a = Given o /\
    out = [Register (default "./sw.js" (opt_serviceWorkerPath o)) "/"] /\
    deferredPrompt p = None /\ refreshing p = false /\ awaiting p = [] /\
    installButton p = default VNull (opt_installButton o) /\
    updateButton p = default VNull (opt_updateButton o) /\
    swManager p =
      Some (SWManager.constructor (default "./sw.js" (opt_serviceWorkerPath o)) None) /\
    listeners p = [mkListener Window "load" OnLoad;
                   mkListener ServiceWorkerContainer "controllerChange" OnControllerChange;
                   mkListener Window "updatefound" OnUpdateFound].
Proof.
  unfold launch. destruct a as [| |o]; simpl; try discriminate.
  unfold construct.
  destruct (negb (is_null _) && _); [discriminate|].
  destruct (negb (is_null _) && _); [discriminate|].
  destruct (negb (has_serviceWorker env)); [discriminate|].
  unfold init, SWManager.init. destruct (has_serviceWorker env); [|discriminate].
  intros [= <- <-]. exists o. simpl. repeat split; reflexivity.
Qed.

Lemma manager_effects env m ev :
  Forall (fun eff => manager_effect eff = true) (SWManager.step env m ev).2.
Proof.
  destruct ev as [reg|err| |w]; simpl; repeat constructor.
  - generalize (SWManager.updatefound_listeners m). intros n. revert m.
    induction n as [|n IH]; intros m; simpl; [constructor|].
    destruct (SWManager.on_updatefound env m) as [m1 out1] eqn:E1.
    specialize (IH m1). destruct (SWManager.repeat_listener n env m1) as [m2 out2].
    simpl in *. apply Forall_app. split; [|exact IH].
    unfold SWManager.on_updatefound in E1.
    destruct (reg_installing env); injection E1 as _ <-; repeat constructor.
  - induction (filter _ _) as [|x l IH]; simpl; [constructor|].
    apply Forall_app. split; [|exact IH]. unfold SWManager.on_statechange.
    destruct (SWManager.newSw m) as [w0|]; [|repeat constructor].
    destruct (worker_state env w0), (controller env); repeat constructor.
Qed.

(** *** Invariants of a page over any sequence of events

    [I] holds of the page and [Q] of every effect, as long as every event
    is one that [ok] admits and the listeners that [ok] lets run are among
    the ones [A] admits. *)
Section Invariant.
Variable I : PWAManager -> Prop.
Variable Q : Effect -> Prop.
Variable A : Env -> Handler -> Prop.
Variable ok : Env -> PageEvent -> Prop.

Hypothesis I_prompt : forall p, I p -> I (set_deferredPrompt None p).
Hypothesis I_awaiting : forall p l, I p -> I (set_awaiting l p).
Hypothesis I_manager : forall p m, I p -> I (set_swManager (Some m) p).
Hypothesis Q_log : forall msg, Q (ConsoleLog msg).
Hypothesis Q_manager : forall eff, manager_effect eff = true -> Q eff.
Hypothesis handler_ok : forall env h e p,
  A env h -> I p ->
  I (run_handler env h e p).1 /\ Forall Q (run_handler env h e p).2.
Hypothesis dom_ok : forall env t type e p l,
  ok env (Dom t type e) -> I p -> In l (listeners p) ->
  l_target l = t -> l_type l = type -> A env (l_handler l).
Hypothesis worker_ok : forall env ev,
  ok env (Worker ev) -> ok env (Dom Window "updatefound" custom_event).

Lemma run_listeners_inv env ls e p :
  Forall (fun l => A env (l_handler l)) ls -> I p ->
  I (run_listeners env ls e p).1 /\ Forall Q (run_listeners env ls e p).2.
Proof.
  intros Hls. revert p. induction Hls as [|l ls Hl _ IH]; intros p Hp; simpl.
  - split; [exact Hp | constructor].
  - destruct (handler_ok env (l_handler l) e p Hl Hp) as [H1 H2].
    destruct (run_handler env (l_handler l) e p) as [p1 out1].
    destruct (IH p1 H1) as [H3 H4].
    destruct (run_listeners env ls e p1) as [p2 out2]. simpl in *.
    split; [exact H3 | apply Forall_app; auto].
Qed.

Lemma dispatch_inv env t type e p :
  ok env (Dom t type e) -> I p ->
  I (dispatch env t type e p).1 /\ Forall Q (dispatch env t type e p).2.
Proof.
  intros Hok Hp. apply run_listeners_inv; [|exact Hp].
  apply Forall_forall. intros l Hl. apply list_elem_of_filter in Hl as [[Ht Hy] Hl].
  apply (dom_ok env t type e p l); auto. apply list_elem_of_In, Hl.
Qed.

Lemma resume_all_inv outcome n p :
  I p -> I (resume_all outcome n p).1 /\ Forall Q (resume_all outcome n p).2.
Proof.
  revert p. induction n as [|n IH]; intros p Hp; simpl.
  - split; [exact Hp | constructor].
  - destruct (IH (set_deferredPrompt None p) (I_prompt p Hp)) as [H1 H2].
    destruct (resume_all outcome n _) as [p2 out2]. simpl in *.
    split; [exact H1|]. constructor; [apply Q_log | exact H2].
Qed.

Lemma deliver_inv env out p :
  ok env (Dom Window "updatefound" custom_event) ->
  Forall (fun eff => manager_effect eff = true) out -> I p ->
  I (deliver env out p).1 /\ Forall Q (deliver env out p).2.
Proof.
  intros Hok Hout. revert p. induction Hout as [|eff rest He _ IH]; intros p Hp; simpl.
  - split; [exact Hp | constructor].
  - assert (Hd : forall d : PWAManager * list Effect,
               d = match eff with
                   | DispatchWindowEvent type => dispatch env Window type custom_event p
                   | _ => (p, [])
                   end -> I d.1 /\ Forall Q d.2).
    { intros d ->. destruct eff; try (split; [exact Hp | constructor]).
      simpl in He. apply bool_decide_eq_true in He. subst type.
      apply dispatch_inv; assumption. }
    specialize (Hd _ eq_refl).
    destruct (match eff with DispatchWindowEvent _ => _ | _ => _ end) as [p1 out1].
    destruct Hd as [H1 H2]. destruct (IH p1 H1) as [H3 H4].
    destruct (deliver env rest p1) as [p2 out2]. simpl in *.
    split; [exact H3|]. constructor; [apply Q_manager, He|]. apply Forall_app; auto.
Qed.

Lemma step_inv env p ev :
  ok env ev -> I p -> I (step env p ev).1 /\ Forall Q (step env p ev).2.
Proof.
  intros Hok Hp. destruct ev as [t type e|d outcome|ev]; simpl.
  - apply dispatch_inv; assumption.
  - apply resume_all_inv, I_awaiting, Hp.
  - destruct (swManager p) as [m|]; [|split; [exact Hp | constructor]].
    pose proof (manager_effects env m ev) as Hm.
    destruct (SWManager.step env m ev) as [m' out].
    apply deliver_inv; [eapply worker_ok, Hok | exact Hm | apply I_manager, Hp].
Qed.

Lemma run_inv p evs :
  Forall (fun x => ok x.1 x.2) evs -> I p ->
  I (run p evs).1 /\ Forall Q (run p evs).2.
Proof.
  intros Hevs. revert p. induction Hevs as [|[env ev] evs Hev _ IH]; intros p Hp; simpl.
  - split; [exact Hp | constructor].
  - destruct (step_inv env p ev Hev Hp) as [H1 H2].
    destruct (step env p ev) as [p1 out1]. destruct (IH p1 H1) as [H3 H4].
    destruct (run p1 evs) as [p2 out2]. simpl in *.
    split; [exact H3 | apply Forall_app; auto].
Qed.

End Invariant.

(** *** The guard flag *)

(** One listener spends what it calls, when the host's callback returns
    normally. *)
Lemma run_handler_budget env h e p :
  host_throws env ControllerChange = None ->
  length (calls ControllerChange (run_handler env h e p).2)
  + budget (run_handler env h e p).1 = budget p.
Proof.
  intros Hok. unfold budget. destruct h; simpl; try reflexivity.
  - rewrite on_load_calls, on_load_refreshing. reflexivity.
  - destruct (host_throws env BeforeInstallPrompt); reflexivity.
  - destruct (deferredPrompt p); reflexivity.
  - destruct (host_throws env AppInstalled); reflexivity.
  - rewrite Hok. destruct (refreshing p) eqn:E; simpl; [rewrite E|]; reflexivity.
Qed.

Lemma run_listeners_budget env ls e p :
  host_throws env ControllerChange = None ->
  length (calls ControllerChange (run_listeners env ls e p).2)
  + budget (run_listeners env ls e p).1 = budget p.
Proof.
  intros Hok. revert p. induction ls as [|l ls IH]; intros p; simpl; [reflexivity|].
  pose proof (run_handler_budget env (l_handler l) e p Hok) as H1.
  destruct (run_handler env (l_handler l) e p) as [p1 out1].
  specialize (IH p1). destruct (run_listeners env ls e p1) as [p2 out2].
  simpl in *. rewrite calls_app, length_app. lia.
Qed.

Lemma resume_all_budget outcome n p :
  length (calls ControllerChange (resume_all outcome n p).2)
  + budget (resume_all outcome n p).1 = budget p.
Proof.
  revert p. induction n as [|n IH]; intros p; simpl; [reflexivity|].
  specialize (IH (set_deferredPrompt None p)).
  destruct (resume_all outcome n (set_deferredPrompt None p)) as [p2 out2].
  simpl in *. exact IH.
Qed.

(** The service worker manager never calls the host. *)
Lemma manager_calls env m ev cb : calls cb (SWManager.step env m ev).2 = [].
Proof.
  destruct ev as [reg|err| |w]; simpl; try reflexivity.
  - generalize (SWManager.updatefound_listeners m). intros n. revert m.
    induction n as [|n IH]; intros m; simpl; [reflexivity|].
    destruct (SWManager.on_updatefound env m) as [m1 out1] eqn:E1.
    specialize (IH m1). destruct (SWManager.repeat_listener n env m1) as [m2 out2].
    simpl in *. rewrite calls_app, IH.
    unfold SWManager.on_updatefound in E1.
    destruct (reg_installing env); injection E1 as _ <-; reflexivity.
  - induction (filter _ _) as [|x l IH]; simpl; [reflexivity|].
    rewrite calls_app, IH, app_nil_r. unfold SWManager.on_statechange.
    destruct (SWManager.newSw m) as [w0|]; [|reflexivity].
    destruct (worker_state env w0), (controller env); reflexivity.
Qed.

Lemma deliver_budget env out p :
  host_throws env ControllerChange = None ->
  calls ControllerChange out = [] ->
  length (calls ControllerChange (deliver env out p).2)
  + budget (deliver env out p).1 = budget p.
Proof.
  intros Hok. revert p. induction out as [|eff rest IH]; intros p H; simpl; [reflexivity|].
  change (eff :: rest) with ([eff] ++ rest)%list in H.
  rewrite calls_app in H. apply app_eq_nil in H as [He Hr].
  assert (Hd : forall d : PWAManager * list Effect,
             d = match eff with
                 | DispatchWindowEvent type => dispatch env Window type custom_event p
                 | _ => (p, [])
                 end ->
             length (calls ControllerChange d.2) + budget d.1 = budget p).
  { intros d ->. destruct eff; try reflexivity. apply run_listeners_budget, Hok. }
  specialize (Hd _ eq_refl).
  destruct (match eff with DispatchWindowEvent _ => _ | _ => _ end) as [p1 out1].
  specialize (IH p1 Hr). destruct (deliver env rest p1) as [p2 out2].
  cbn [fst snd] in *.
  change (eff :: out1 ++ out2)%list with ([eff] ++ (out1 ++ out2))%list.
  rewrite !calls_app, He, !length_app. simpl. lia.
Qed.

Lemma step_budget env p ev :
  host_throws env ControllerChange = None ->
  length (calls ControllerChange (step env p ev).2)
  + budget (step env p ev).1 = budget p.
Proof.
  intros Hok. destruct ev as [t type e|d outcome|ev]; simpl.
  - apply run_listeners_budget, Hok.
  - rewrite resume_all_budget. reflexivity.
  - destruct (swManager p) as [m|]; [|reflexivity].
    pose proof (manager_calls env m ev ControllerChange) as Hm.
    destruct (SWManager.step env m ev) as [m' out].
    rewrite deliver_budget by assumption. reflexivity.
Qed.

Lemma run_budget p evs :
  Forall (fun x => host_throws x.1 ControllerChange = None) evs ->
  length (calls ControllerChange (run p evs).2) + budget (run p evs).1 = budget p.
Proof.
  intros Hevs. revert p.
  induction Hevs as [|[env ev] evs Hev _ IH]; intros p; simpl; [reflexivity|].
  pose proof (step_budget env p ev Hev) as H1.
  destruct (step env p ev) as [p1 out1].
  specialize (IH p1). destruct (run p1 evs) as [p2 out2].
  simpl in *. rewrite calls_app, length_app. lia.
Qed.

Lemma calls_none cb out :
  Forall (fun eff => is_call cb eff = false) out -> calls cb out = [].
Proof.
  induction 1 as [|eff out He _ IH]; [reflexivity|].
  change (calls cb (eff :: out)) with
    (match (match eff with
            | CallHost c e => if decide (c = cb) then Some e else None
            | _ => None
            end) with
     | Some e => e :: calls cb out
     | None => calls cb out
     end).
  rewrite IH. destruct eff; try reflexivity. simpl in He.
  apply bool_decide_eq_false in He. rewrite decide_False by exact He. reflexivity.
Qed.

Lemma on_load_out env p :
  (on_load env p).2 = [] \/ exists err, (on_load env p).2 = [Uncaught err].
Proof.
  unfold on_load. destruct (updateButton _); simpl; auto.
  destruct (global_updateButton env) as [[]|]; simpl; eauto.
Qed.

(** Once the flag is set, the flag stays set and the callback is not
    called, whatever the host's callbacks do. *)
Lemma run_refreshing p evs :
  refreshing p = true ->
  refreshing (run p evs).1 = true /\
  Forall (fun eff => is_call ControllerChange eff = false) (run p evs).2.
Proof.
  intros Hp.
  apply (run_inv (fun q => refreshing q = true)
           (fun eff => is_call ControllerChange eff = false)
           (fun _ _ => True) (fun _ _ => True)); auto.
  - intros eff Heff. destruct eff; try reflexivity; discriminate.
  - intros env h e q _ Hq. destruct h; simpl.
    + rewrite on_load_refreshing. split; [exact Hq|].
      destruct (on_load_out env q) as [->|[err ->]]; repeat constructor.
    + destruct (host_throws env BeforeInstallPrompt); split; auto; repeat constructor.
    + destruct (deferredPrompt q); split; auto; repeat constructor.
    + split; auto; repeat constructor.
    + destruct (host_throws env AppInstalled); split; auto; repeat constructor.
    + rewrite Hq. split; auto.
    + split; auto; repeat constructor.
  - apply Forall_forall. auto.
Qed.

(** C7, as the code has it.  Once the flag is set, the host's
    [controllerChange] callback is never called again, whatever happens
    on the page.  The flag is set when the callback returns: as long as
    the callback returns normally, it is called at most once, however many
    times and on whatever target any event is dispatched. *)
Theorem controller_change_at_most_once p evs :
  (refreshing p = true -> calls ControllerChange (run p evs).2 = []) /\
  (Forall (fun x => host_throws x.1 ControllerChange = None) evs ->
   length (calls ControllerChange (run p evs).2) <= 1).
Proof.
  split.
  - intros E. apply calls_none, run_refreshing, E.
  - intros Hevs. pose proof (run_budget p evs Hevs) as H. unfold budget in H at 2.
    destruct (refreshing p); lia.
Qed.

(** The first delivery calls the host and, the host returning, sets the
    flag. *)
Lemma controller_change_first env e p :
  refreshing p = false -> host_throws env ControllerChange = None ->
  run_handler env OnControllerChange e p =
  (set_refreshing true p, [CallHost ControllerChange e]).
Proof. intros E Hok. simpl. rewrite E, Hok. reflexivity. Qed.

Lemma update_unwired_add t type h p :
  h <> OnUpdateClick -> h <> OnAppInstalled -> update_unwired p ->
  update_unwired (addEventListener t type h p).
Proof.
  intros H1 H2 Hp. unfold update_unwired. simpl. apply Forall_app. split; [exact Hp|].
  repeat constructor; assumption.
Qed.

Lemma on_load_stops env p el :
  updateButton p = VElement el -> global_updateButton env = None ->
  update_unwired p ->
  update_unwired (on_load env p).1 /\
  (on_load env p).2 = [Uncaught "ReferenceError: updateButton is not defined"].
Proof.
  intros Hu Hg Hp. unfold on_load.
  destruct (installButton _); simpl; rewrite Hu, Hg; simpl; split; try reflexivity;
    repeat (apply update_unwired_add; [discriminate..|]); exact Hp.
Qed.


Lemma resume_all_discards outcome n p :
  deferredPrompt (resume_all outcome (S n) p).1 = None.
Proof.
  revert p. induction n as [|n IH]; intros p; [reflexivity|].
  specialize (IH (set_deferredPrompt None p)).
  change (resume_all outcome (S (S n)) p) with
    (let '(p1, out1) := resume_click outcome p in
     let '(p2, out2) := resume_all outcome (S n) p1 in (p2, (out1 ++ out2)%list)).
  unfold resume_click.
  destruct (resume_all outcome (S n) (set_deferredPrompt None p)) as [p2 out2].
  exact IH.
Qed.

(** C9. Once the install listener has shown the stored prompt and the
    user's choice has arrived, the stored prompt is gone; the install
    listener run again then ends in a rejected promise (the [TypeError] of
    calling [prompt] on [null] inside the async listener): no prompt is
    shown, nothing is thrown into the dispatch, and the page state is left
    exactly as it was. *)
Theorem install_retrigger_safe env p d outcome e1 e2 :
  deferredPrompt p = Some d ->
  let first := run_handler env OnInstallClick e1 p in
  let settled := step env first.1 (UserChoice d outcome) in
  first.2 = [Prompt d] /\
  deferredPrompt settled.1 = None /\
  run_handler env OnInstallClick e2 settled.1 =
    (settled.1, [UnhandledRejection "TypeError"]).
Proof.
  intros Hd. simpl. rewrite Hd. simpl. split; [reflexivity|].
  assert (Hn : exists n,
             length (filter (fun d' => d' = d) (awaiting p ++ [d])%list) = S n).
  { rewrite filter_app, length_app. rewrite filter_cons_True by reflexivity.
    simpl. exists (length (filter (fun d' => d' = d) (awaiting p))). lia. }
  destruct Hn as [n ->].
  pose proof (resume_all_discards outcome n
    (set_awaiting (filter (fun d' => d' <> d) (awaiting p ++ [d])%list)
       (set_awaiting (awaiting p ++ [d])%list p))) as Hnone.
  split; [exact Hnone|]. rewrite Hnone. reflexivity.
Qed.

(** Without a stored prompt the install listener changes nothing, whatever
    the state of the page. *)
Lemma install_click_without_prompt env p e :
  deferredPrompt p = None ->
  run_handler env OnInstallClick e p = (p, [UnhandledRejection "TypeError"]).
Proof. intros H. simpl. rewrite H. reflexivity. Qed.

(** The "load" listener of a page with an update button stops at the free
    name [updateButton] when no global of that name exists: the
    "appInstalled" listener and the click listener of the update button
    are never attached. *)
Lemma on_load_update_button env p el :
  updateButton p = VElement el -> global_updateButton env = None ->
  (on_load env p).2 = [Uncaught "ReferenceError: updateButton is not defined"] /\
  forall l, In l (listeners (on_load env p).1) ->
    In l (listeners p) \/ l_handler l = OnBeforeInstallPrompt \/
    l_handler l = OnInstallClick.
Proof.
  intros Hu Hg. unfold on_load.
  destruct (installButton _) eqn:Ei; simpl; rewrite Hu, Hg; simpl;
    (split; [reflexivity|]); intros l; rewrite ?in_app_iff; simpl;
    intuition (subst; auto).
Qed.

End PWAFacts.

(** ** The worker script on concrete runs *)
Module Runs.
Import Platform SW Page Scenarios MoreScenarios.

Example at_root_parses :
  at_root "/offline.html" = "https://pwa.example/offline.html" /\
  at_root "./offline.html" = "https://pwa.example/offline.html" /\
  at_root "offline.html" = "https://pwa.example/offline.html" /\
  at_root "https://cdn.example/app.js" = "https://cdn.example/app.js".
Proof. repeat split. Qed.

Lemma install_contract_witness :
  install deployed online [] =
    (Fulfilled, installed_storage, [get "/offline.html"]) /\
  (exists (c : Cache) resp,
     storage_lookup "v0.0.0" installed_storage = Some c /\
     online (get "/offline.html") = Some resp /\
     cache_match c (get "/offline.html") = Some resp /\
     exists served,
       on_fetch deployed (get "/offline.html") offline installed_storage =
       (Some served, installed_storage, [])) /\
  (install deployed offline []).1.1 = Rejected.
Proof.
  split; [vm_compute; reflexivity|]. split.
  - apply (proj1 (SWFacts.install_contract deployed online [])
             installed_storage [get "/offline.html"] eq_refl "/offline.html").
    left. reflexivity.
  - apply (proj2 (SWFacts.install_contract deployed offline []) "/offline.html").
    + left. reflexivity.
    + reflexivity.
Defined.

Lemma activate_evicts_witness :
  storage_lookup "legacy" (activate deployed offline two_generations).1.2 = None /\
  storage_lookup "v0.0.0" (activate deployed offline two_generations).1.2 =
    storage_lookup "v0.0.0" two_generations.
Proof.
  destruct (SWFacts.activate_evicts deployed offline two_generations)
    as (_ & _ & Hgone & Hkept).
  split.
  - apply Hgone. vm_compute. intros H. inversion H as [|? ? ? H']; inversion H'.
  - apply Hkept. left.
Defined.

Lemma serving_storage_served : served_by deployed serving_storage.
Proof.
  apply served_activated, (waiting_installed deployed online []).
  vm_compute; reflexivity.
Qed.

Lemma cache_first_serving_witness :
  served_by deployed serving_storage /\
  on_fetch deployed (get "/offline.html#top") online serving_storage =
    (Some offline_page, serving_storage, []).
Proof.
  split; [exact serving_storage_served|].
  apply (SWFacts.cache_first_serving deployed online serving_storage
           [(get "/offline.html", offline_page)]).
  - reflexivity.
  - exact serving_storage_served.
  - vm_compute; reflexivity.
  - vm_compute; reflexivity.
Defined.

(** The cache of the current generation holds the page under the very
    method and URL of the request, stored for a request in English; the
    same request in French is a miss: the worker asks the network and,
    the network failing, answers with the offline page. *)
Lemma cache_first_serving_counterexample :
  served_by deployed localized_storage /\
  (exists c : Cache,
     storage_lookup "v0.0.0" localized_storage = Some c /\
     In (page_in "en", english_page) c) /\
  req_method (page_in "fr") = req_method (page_in "en") /\
  req_url (page_in "fr") = req_url (page_in "en") /\
  on_fetch deployed (page_in "fr") offline localized_storage =
    (Some offline_page, localized_storage, [page_in "fr"]) /\
  on_fetch deployed (page_in "en") offline localized_storage =
    (Some english_page, localized_storage, []).
Proof.
  split; [apply served_fetch, serving_storage_served|].
  split; [eexists; split; [vm_compute; reflexivity | right; left; reflexivity]|].
  repeat split; vm_compute; reflexivity.
Defined.

(** [caches.match] searches every cache, oldest first: on a storage where a
    cache older than the current generation holds the URL (none that the
    worker's own life cycle builds), the older entry is the answer. *)
Example older_cache_answers_first :
  (on_fetch deployed (get "/app.js") offline two_generations).1.1 =
  Some (mkResponse 200 [] "old").
Proof. vm_compute. reflexivity. Qed.



Lemma offline_fallback_witness :
  on_fetch deployed get_missing offline installed_storage =
    (Some offline_page, installed_storage, [get_missing]) /\
  on_fetch deployed get_missing offline [] = (None, [], [get_missing]).
Proof.
  split.
  - apply (SWFacts.offline_fallback deployed offline installed_storage get_missing);
      vm_compute; reflexivity.
  - apply (SWFacts.offline_fallback deployed offline [] get_missing);
      reflexivity.
Defined.




(** What the condition on install phases excludes: when a worker of the
    same generation installs with [/missing] in its precache list, the
    cached 404 is replaced by what the network answers then, with no
    eviction in between. *)
Example cached_error_replaced_by_install :
  storage_match missing_storage get_missing = Some not_found /\
  (install extended recovered missing_storage).1.1 = Fulfilled /\
  storage_match (install extended recovered missing_storage).1.2 get_missing =
    Some found.
Proof. repeat split; vm_compute; reflexivity. Qed.

Lemma update_handshake_gating_witness :
  posts (SWManager.step updating (watching updating) (SWManager.StateChange 2)).2 =
    [(2, "skipWaiting")] /\
  dispatched (SWManager.step updating (watching updating) (SWManager.StateChange 2)).2 =
    ["updatefound"] /\
  posts (SWManager.step first_visit (watching first_visit)
           (SWManager.StateChange 2)).2 = [] /\
  dispatched (SWManager.step first_visit (watching first_visit)
                (SWManager.StateChange 2)).2 = [].
Proof.
  pose proof (SWManagerFacts.update_handshake_gating updating (watching updating) 2)
    as H.
  pose proof (SWManagerFacts.update_handshake_gating first_visit
                (watching first_visit) 2) as H'.
  cbv zeta in H, H'.
  destruct H as (H1 & _). destruct H' as (_ & H2 & _).
  destruct (H1 2 eq_refl eq_refl (ex_intro _ 1 eq_refl)) as [Hp Hd].
  destruct H2 as [Hp' Hd']; [reflexivity|].
  split; [exact Hp|]. split; [exact Hd|]. split; [exact Hp'|exact Hd'].
Defined.

(** The message and the event are issued at a moment when the worker
    found last does not reach the "installed" state: worker 3 waits,
    installed, and the state change delivered is the one of worker 2, found
    earlier, becoming "activated".  The listener still attached to worker
    2 tests the state of worker 3 and tells it, once more, to skip
    waiting. *)
Lemma update_handshake_gating_counterexample :
  SWManager.newSw watching_both = Some 3 /\
  SWManager.statechange_listeners watching_both = [2; 3] /\
  worker_state second_update 2 = activated /\
  worker_state second_update 3 = installed /\
  posts (SWManager.step second_update watching_both (SWManager.StateChange 2)).2 =
    [(3, "skipWaiting")] /\
  dispatched (SWManager.step second_update watching_both (SWManager.StateChange 2)).2 =
    ["updatefound"].
Proof. repeat split. Defined.

(** The whole handshake on a page that a worker controls: the new worker
    is told to skip waiting, the window hears "updatefound" and the
    [PWAManager] listener logs it before the manager's own log line. *)
Example update_arrives_handshake :
  (PWA.run loaded_page update_arrives).2 =
  [ConsoleLog "[ServiceWorker] registration successful";
   ConsoleLog "installed"; PostMessage 2 "skipWaiting";
   DispatchWindowEvent "updatefound";
   ConsoleLog "New Update Available!";
   ConsoleLog "[ServiceWorker] New Update Available!"].
Proof. vm_compute. reflexivity. Qed.

Lemma controller_change_at_most_once_witness :
  Forall (fun x => host_throws x.1 ControllerChange = None) two_signals /\
  length (calls ControllerChange (PWA.run loaded_page two_signals).2) <= 1 /\
  PWA.refreshing (PWA.run loaded_page two_signals).1 = true /\
  calls ControllerChange
    (PWA.run (PWA.run loaded_page two_signals).1 two_failed_signals).2 = [].
Proof.
  assert (Hq : Forall (fun x => host_throws x.1 ControllerChange = None) two_signals)
    by (repeat constructor).
  split; [exact Hq|]. split; [|split; [reflexivity|]].
  - apply (PWAFacts.controller_change_at_most_once loaded_page two_signals), Hq.
  - apply (PWAFacts.controller_change_at_most_once
             (PWA.run loaded_page two_signals).1 two_failed_signals).
    reflexivity.
Defined.

(** The two signals of [two_signals] do reach the listener: the host is
    called for the first one only. *)
Example two_signals_one_call :
  calls ControllerChange (PWA.run loaded_page two_signals).2 = [5].
Proof. vm_compute. reflexivity. Qed.

(** On a page whose [controllerChange] callback throws, the flag is never
    set: the callback is called for the first signal and again for the
    second. *)
Lemma controller_change_at_most_once_counterexample :
  host_throws throwing ControllerChange = Some "Error: host" /\
  calls ControllerChange (PWA.run loaded_page two_failed_signals).2 = [5; 6] /\
  PWA.refreshing (PWA.run loaded_page two_failed_signals).1 = false /\
  (PWA.run loaded_page two_failed_signals).2 =
    [CallHost ControllerChange 5; Uncaught "Error: host";
     CallHost ControllerChange 6; Uncaught "Error: host"].
Proof. repeat split. Defined.

(** Event types are case-sensitive: the signal under its all-lowercase
    name runs no listener of the page. *)
Example browser_signal_unheard :
  PWA.run loaded_page browser_signal = (loaded_page, []).
Proof. vm_compute. reflexivity. Qed.



Lemma install_retrigger_safe_witness :
  PWA.deferredPrompt prompted_page = Some 7 /\
  let first := PWA.run_handler updating PWA.OnInstallClick 8 prompted_page in
  let settled := PWA.step updating first.1 (PWA.UserChoice 7 "accepted") in
  first.2 = [Prompt 7] /\
  PWA.deferredPrompt settled.1 = None /\
  PWA.run_handler updating PWA.OnInstallClick 9 settled.1 =
    (settled.1, [UnhandledRejection "TypeError"]).
Proof.
  split; [vm_compute; reflexivity|].
  apply (PWAFacts.install_retrigger_safe updating prompted_page 7 "accepted" 8 9).
  vm_compute; reflexivity.
Defined.

End Runs.

(** ** Facts about the custom base64 *)
Module Base64Facts.
Import Base64.

Lemma list_ind3 {A} (P : list A -> Prop) :
  P [] -> (forall a, P [a]) -> (forall a b, P [a; b]) ->
  (forall a b c l, P l -> P (a :: b :: c :: l)) ->
  forall l, P l.
Proof.
  intros H0 H1 H2 H3 l.
  assert (H : P l /\ (forall a, P (a :: l)) /\ (forall a b, P (a :: b :: l))).
  { induction l as [|x l (IH0 & IH1 & IH2)]; [auto|].
    split; [apply IH1|]. split; [intros a; apply IH2|].
    intros a b. apply H3, IH0. }
  apply H.
Qed.

Lemma encode_split l : encode l = (map digit (sextets l) ++ padding l)%list.
Proof.
  induction l as [|a|a b|a b c l IH] using list_ind3; try reflexivity.
  cbn [encode sextets padding map app]. rewrite IH. reflexivity.
Qed.

Ltac div_lia := zify; Z.to_euclidean_division_equations; lia.

Lemma byte_bound a : (N_of_ascii a < 256)%N.
Proof. apply N_ascii_bounded. Qed.

Lemma sextets_bound l : Forall (fun n => (n < 64)%N) (sextets l).
Proof.
  induction l as [|a|a b|a b c l IH] using list_ind3; cbn [sextets];
    rewrite ?Forall_cons, ?Forall_nil; repeat split; try exact IH.
  all: try pose proof (byte_bound a); try pose proof (byte_bound b);
    try pose proof (byte_bound c); div_lia.
Qed.

Lemma byte_eq n a : n = N_of_ascii a -> ascii_of_N n = a.
Proof. intros ->. apply ascii_N_embedding. Qed.

Lemma bytes_sextets l : bytes (sextets l) = l.
Proof.
  induction l as [|a|a b|a b c l IH] using list_ind3; cbn [sextets bytes];
    rewrite ?IH; try reflexivity;
    try pose proof (byte_bound a); try pose proof (byte_bound b);
    try pose proof (byte_bound c);
    repeat (f_equal; try (apply byte_eq; div_lia)).
Qed.

Lemma digits_checked : forallb digit_ok (map N.of_nat (seq 0 64)) = true.
Proof. vm_compute. reflexivity. Qed.

Lemma digit_ok_below n : (n < 64)%N -> digit_ok n = true.
Proof.
  intros Hn. pose proof digits_checked as H.
  rewrite forallb_forall in H. apply H.
  apply in_map_iff. exists (N.to_nat n). split; [lia|].
  apply in_seq. lia.
Qed.

Lemma digit_spec n :
  (n < 64)%N ->
  value (digit n) = Some n /\ is_whitespace (digit n) = false /\
  Ascii.eqb (digit n) pad = false /\ Ascii.eqb (digit n) "_" = false.
Proof.
  intros Hn. apply digit_ok_below in Hn. unfold digit_ok in Hn.
  apply andb_prop in Hn as [Hn Hu]. apply andb_prop in Hn as [Hn Hp].
  apply andb_prop in Hn as [Hv Hw].
  apply negb_true_iff in Hw, Hp, Hu. repeat split; try assumption.
  destruct (value (digit n)) as [m|]; [|discriminate].
  apply N.eqb_eq in Hv. congruence.
Qed.

Lemma values_digits v :
  Forall (fun n => (n < 64)%N) v -> values (map digit v) = Some v.
Proof.
  induction 1 as [|n v Hn _ IH]; simpl; [reflexivity|].
  destruct (digit_spec n Hn) as (-> & _). rewrite IH. reflexivity.
Qed.

Lemma padding_cases l :
  padding l = [] \/ padding l = [pad] \/ padding l = [pad; pad].
Proof. induction l as [|a|a b|a b c l IH] using list_ind3; simpl; auto. Qed.

Lemma keep_encoding v p :
  Forall (fun n => (n < 64)%N) v -> Forall (fun c => c = pad) p ->
  List.filter (fun c => negb (is_whitespace c)) (map digit v ++ p) =
  (map digit v ++ p)%list.
Proof.
  intros Hv Hp. apply forallb_filter_id. rewrite forallb_app. apply andb_true_iff.
  split; apply forallb_forall; intros c Hc.
  - apply in_map_iff in Hc as (n & <- & Hn). rewrite Forall_forall in Hv.
    apply list_elem_of_In, Hv, digit_spec in Hn as (_ & -> & _). reflexivity.
  - rewrite Forall_forall in Hp. apply list_elem_of_In, Hp in Hc. subst c. reflexivity.
Qed.

Lemma length_sextets l :
  (N.of_nat (length (map digit (sextets l) ++ padding l)) mod 4 = 0)%N /\
  (N.of_nat (length (sextets l)) mod 4 <> 1)%N.
Proof.
  induction l as [|a|a b|a b c l [IH1 IH2]] using list_ind3;
    cbn [sextets padding map app length]; try (split; [reflexivity | discriminate]).
  rewrite length_app, length_map in *. split; div_lia.
Qed.

Lemma sextets_nil l : sextets l = [] -> l = [].
Proof. destruct l as [|a [|b [|c l]]]; [reflexivity|discriminate..]. Qed.

Lemma strip_padding_encoding l :
  strip_padding (map digit (sextets l) ++ padding l) = map digit (sextets l).
Proof.
  unfold strip_padding. destruct (length_sextets l) as [-> _]. simpl.
  rewrite rev_app_distr.
  pose proof (sextets_bound l) as Hb.
  assert (Hrev : rev (map digit (sextets l)) = [] \/
                 exists n r, (n < 64)%N /\ rev (map digit (sextets l)) = digit n :: r).
  { destruct (rev (sextets l)) as [|n r] eqn:E.
    - left. rewrite <- map_rev, E. reflexivity.
    - right. exists n, (map digit r). split; [|rewrite <- map_rev, E; reflexivity].
      rewrite Forall_forall in Hb. apply Hb, list_elem_of_In, in_rev. rewrite E. left.
      reflexivity. }
  assert (Hback : rev (rev (map digit (sextets l))) = map digit (sextets l))
    by apply rev_involutive.
  destruct (padding_cases l) as [Hp|[Hp|Hp]]; rewrite Hp; simpl.
  - rewrite app_nil_r. destruct Hrev as [E|(n & r & Hn & E)].
    + rewrite E. rewrite E in Hback. simpl in Hback. reflexivity.
    + rewrite E. destruct (digit_spec n Hn) as (_ & _ & Hne & _).
      destruct r; [reflexivity|]. rewrite Hne. reflexivity.
  - destruct Hrev as [E|(n & r & Hn & E)].
    + rewrite E in Hback. symmetry in Hback. apply map_eq_nil, sextets_nil in Hback.
      subst l. discriminate Hp.
    + rewrite E. destruct (digit_spec n Hn) as (_ & _ & Hne & _).
      rewrite Hne. change (rev (digit n :: r) = map digit (sextets l)).
      rewrite <- E. exact Hback.
  - exact Hback.
Qed.

Lemma decode_encode l : decode (encode l) = Some l.
Proof.
  unfold decode. rewrite encode_split.
  rewrite keep_encoding.
  - rewrite strip_padding_encoding, length_map.
    destruct (length_sextets l) as [_ Hl]. apply N.eqb_neq in Hl. rewrite Hl.
    rewrite values_digits by apply sextets_bound. simpl. rewrite bytes_sextets.
    reflexivity.
  - apply sextets_bound.
  - destruct (padding_cases l) as [Hp|[Hp|Hp]]; rewrite Hp;
      rewrite ?Forall_cons, ?Forall_nil; tauto.
Qed.

(** [atob] reads back what [btoa] writes. *)
Lemma atob_btoa data : atob (btoa data) = Some data.
Proof.
  unfold atob, btoa. rewrite list_ascii_of_string_of_list_ascii, decode_encode.
  simpl. rewrite string_of_list_ascii_of_string. reflexivity.
Qed.

Lemma replace_all_list from to data :
  list_ascii_of_string (replace_all from to data) =
  map (swap from to) (list_ascii_of_string data).
Proof. induction data as [|c data IH]; simpl; [reflexivity|]. rewrite IH. reflexivity. Qed.

Lemma replace_all_string from to l :
  replace_all from to (string_of_list_ascii l) =
  string_of_list_ascii (map (swap from to) l).
Proof. induction l as [|c l IH]; simpl; [reflexivity|]. rewrite IH. reflexivity. Qed.

Lemma encode_no_underscore l : Forall (fun c => Ascii.eqb c "_" = false) (encode l).
Proof.
  rewrite encode_split. apply Forall_app. split.
  - apply Forall_forall. intros c Hc. apply list_elem_of_In, in_map_iff in Hc as (n & <- & Hn).
    pose proof (sextets_bound l) as Hb. rewrite Forall_forall in Hb.
    apply list_elem_of_In, Hb, digit_spec in Hn. apply Hn.
  - destruct (padding_cases l) as [Hp|[Hp|Hp]]; rewrite Hp;
      rewrite ?Forall_cons, ?Forall_nil; tauto.
Qed.

Lemma swap_back l :
  Forall (fun c => Ascii.eqb c "_" = false) l ->
  map (swap "_" "+") (map (swap "+" "_") l) = l.
Proof.
  induction 1 as [|c l Hc _ IH]; simpl; [reflexivity|]. rewrite IH. f_equal.
  unfold swap. destruct (Ascii.eqb c "+") eqn:E; [|rewrite Hc; reflexivity].
  apply Ascii.eqb_eq in E. subst c. reflexivity.
Qed.

Lemma swap_id l :
  Forall (fun c => Ascii.eqb c "_" = false) l -> map (swap "_" "+") l = l.
Proof.
  induction 1 as [|c l Hc _ IH]; simpl; [reflexivity|]. rewrite IH. f_equal.
  unfold swap. rewrite Hc. reflexivity.
Qed.

(** X1. The two helpers are inverse one way: decoding with [catob] what
    [cbtoa] encoded gives the data back, whatever the bytes. *)
Theorem catob_cbtoa data : catob (cbtoa data) = Some data.
Proof.
  unfold catob, cbtoa, btoa. rewrite !replace_all_string.
  rewrite swap_back by apply encode_no_underscore. apply atob_btoa.
Qed.

(** X2. [catob] also reads the platform's own encoding: what [btoa] wrote is
    decoded to the data, as the underscore is no base64 digit. *)
Theorem catob_btoa data : catob (btoa data) = Some data.
Proof.
  unfold catob, btoa. rewrite replace_all_string.
  rewrite swap_id by apply encode_no_underscore. apply atob_btoa.
Qed.

Lemma length_encode l : length (encode l) = 4 * ((length l + 2) / 3).
Proof.
  induction l as [|a|a b|a b c l IH] using list_ind3; try reflexivity.
  cbn [encode length]. rewrite IH.
  replace (S (S (S (length l))) + 2) with (1 * 3 + (length l + 2)) by lia.
  rewrite Nat.div_add_l by lia. lia.
Qed.

Lemma length_list_ascii s : length (list_ascii_of_string s) = String.length s.
Proof. induction s as [|c s IH]; simpl; [reflexivity|]. rewrite IH. reflexivity. Qed.

(** X3. [cbtoa] keeps the padding: it writes four characters for every
    three bytes started. *)
Theorem cbtoa_length data :
  String.length (cbtoa data) = 4 * ((String.length data + 2) / 3).
Proof.
  rewrite <- !length_list_ascii. unfold cbtoa, btoa.
  rewrite replace_all_list, length_map, list_ascii_of_string_of_list_ascii.
  apply length_encode.
Qed.

Lemma custom_digits :
  forallb (fun n => in_custom (swap "+" "_" (digit n))) (map N.of_nat (seq 0 64)) = true.
Proof. vm_compute. reflexivity. Qed.

(** X4. [cbtoa] never writes a plus sign.  It writes letters, figures, the
    underscore and, as [btoa] does, the slash and the padding character. *)
Theorem cbtoa_alphabet data c :
  In c (list_ascii_of_string (cbtoa data)) ->
  In c (list_ascii_of_string custom_alphabet) /\ c <> "+"%char.
Proof.
  unfold cbtoa, btoa. rewrite replace_all_list, list_ascii_of_string_of_list_ascii.
  rewrite encode_split, map_app, in_app_iff.
  assert (Hin : forall x, in_custom x = true ->
                  In x (list_ascii_of_string custom_alphabet) /\ x <> "+"%char).
  { intros x Hx. unfold in_custom in Hx. apply existsb_exists in Hx as (y & Hy & E).
    apply Ascii.eqb_eq in E. subst y. split; [exact Hy|].
    intros ->. revert Hy. vm_compute. intuition discriminate. }
  intros [Hc|Hc]; apply Hin.
  - apply in_map_iff in Hc as (d & <- & Hd). apply in_map_iff in Hd as (n & <- & Hn).
    pose proof (sextets_bound (list_ascii_of_string data)) as Hb.
    rewrite Forall_forall in Hb. apply list_elem_of_In, Hb in Hn.
    pose proof custom_digits as H. rewrite forallb_forall in H. apply H.
    apply in_map_iff. exists (N.to_nat n). split; [lia|]. apply in_seq. lia.
  - destruct (padding_cases (list_ascii_of_string data)) as [Hp|[Hp|Hp]];
      rewrite Hp in Hc; simpl in Hc; intuition (subst; reflexivity).
Qed.

Lemma values_None l c : In c l -> value c = None -> values l = None.
Proof.
  induction l as [|x l IH]; simpl; [tauto|]. intros [->|Hin] Hv.
  - rewrite Hv. reflexivity.
  - rewrite (IH Hin Hv). destruct (value x); reflexivity.
Qed.

Lemma strip_padding_keeps l c :
  In c l -> Ascii.eqb c pad = false -> In c (strip_padding l).
Proof.
  intros Hin Hc. unfold strip_padding.
  destruct (N.of_nat (length l) mod 4 =? 0)%N; [|exact Hin].
  destruct (rev l) as [|c1 [|c2 r]] eqn:E; try exact Hin.
  apply in_rev in Hin. rewrite E in Hin.
  destruct (Ascii.eqb c1 pad) eqn:E1; [|apply in_rev; rewrite E; exact Hin].
  apply Ascii.eqb_eq in E1. subst c1.
  assert (Hin' : In c (c2 :: r)).
  { destruct Hin as [<-|Hin]; [|exact Hin]. rewrite Ascii.eqb_refl in Hc. discriminate. }
  destruct (Ascii.eqb c2 pad) eqn:E2; [|apply in_rev; rewrite rev_involutive; exact Hin'].
  apply Ascii.eqb_eq in E2. subst c2. apply in_rev. rewrite rev_involutive.
  destruct Hin' as [<-|Hin']; [|exact Hin']. rewrite Ascii.eqb_refl in Hc. discriminate.
Qed.

(** X5. [catob] fails on any character that is neither a base64 digit, nor
    the underscore, nor the padding character, nor whitespace: the hyphen
    of the URL-safe alphabet, for one. *)
Theorem catob_rejects data c :
  In c (list_ascii_of_string data) ->
  value c = None -> c <> "_"%char -> c <> pad -> is_whitespace c = false ->
  catob data = None.
Proof.
  intros Hin Hv Hu Hp Hw. unfold catob, atob, decode.
  rewrite replace_all_list.
  set (l := map (swap "_" "+") (list_ascii_of_string data)).
  assert (Hl : In c l).
  { apply in_map_iff. exists c. split; [|exact Hin]. unfold swap.
    destruct (Ascii.eqb c "_") eqn:E; [|reflexivity].
    apply Ascii.eqb_eq in E. contradiction. }
  assert (Hf : In c (List.filter (fun c => negb (is_whitespace c)) l)).
  { apply filter_In. split; [exact Hl|]. rewrite Hw. reflexivity. }
  apply strip_padding_keeps in Hf; [|apply Ascii.eqb_neq; exact Hp].
  rewrite (values_None _ _ Hf Hv). destruct (_ =? 1)%N; reflexivity.
Qed.

End Base64Facts.

(** ** More facts about the worker script *)
Module SWMoreFacts.
Import Platform SW PlatformFacts SWFacts.

Section Worker.
Context (cfg : Config).

(** X6. Activating a second time changes nothing: the caches the first
    activation left are exactly the ones the second one keeps. *)
Theorem activate_idempotent net1 net2 (st : CacheStorage) :
  activate cfg net2 (activate cfg net1 st).1.2 = activate cfg net1 st.
Proof.
  rewrite !activate_result. simpl. f_equal. f_equal.
  rewrite list_filter_filter. apply list_filter_iff. tauto.
Qed.

Lemma storage_keys_open name (st : CacheStorage) :
  storage_keys (storage_open name st) = storage_keys st \/
  storage_keys (storage_open name st) = (storage_keys st ++ [name])%list.
Proof.
  unfold storage_open. destruct (storage_has _ _); [left; reflexivity|].
  right. unfold storage_keys. rewrite fmap_app. reflexivity.
Qed.

Lemma install_lookup_ne net name (st : CacheStorage) :
  name <> cacheName cfg ->
  storage_lookup name (install cfg net st).1.2 = storage_lookup name st.
Proof.
  intros Hn. rewrite install_unfold. destruct (cache_addAll _ _ _ _); simpl;
    rewrite ?storage_lookup_update_ne, storage_lookup_open_ne; auto.
Qed.

(** The cache of the generation after its install phase: the one before
    it, or the one [addAll] made of it. *)
Lemma install_lookup net (st : CacheStorage) :
  let c0 := default [] (storage_lookup (cacheName cfg) st) in
  storage_lookup (cacheName cfg) (install cfg net st).1.2 = Some c0 \/
  exists got c',
    fetch_all net (map (new_request cfg) (preCacheURLs cfg)) = Some got /\
    put_all got [] c0 = Some c' /\
    storage_lookup (cacheName cfg) (install cfg net st).1.2 = Some c'.
Proof.
  cbv zeta. rewrite install_unfold. unfold cache_addAll.
  change (map (request_of_url (parse_url cfg))) with (map (new_request cfg)).
  destruct (fetch_all net (map (new_request cfg) (preCacheURLs cfg)))
    as [got|] eqn:Hf; [|left; apply storage_lookup_open].
  destruct (put_all got [] _) as [c'|] eqn:Hp; [|left; apply storage_lookup_open].
  right. exists got, c'. split; [reflexivity|]. split; [exact Hp|].
  cbn [fst snd]. eauto with storage.
Qed.

Lemma batch_other_urls net got q :
  fetch_all net (map (new_request cfg) (preCacheURLs cfg)) = Some got ->
  (forall u, In u (preCacheURLs cfg) -> same_url q (new_request cfg u) = false) ->
  Forall (fun e => same_url q e.1 = false) got.
Proof.
  intros Hf Hq. destruct (precache_batch cfg net got Hf) as (Hkeys & _ & _).
  apply Forall_forall. intros [r x] Hr. simpl.
  assert (Hin : In r (map (new_request cfg) (preCacheURLs cfg))).
  { rewrite <- Hkeys. apply in_map_iff. exists (r, x).
    split; [reflexivity | apply list_elem_of_In, Hr]. }
  apply in_map_iff in Hin as (u & <- & Hu). apply Hq, Hu.
Qed.

(** X7. The install phase touches nothing but the precache URLs in the
    cache of its own generation: every other cache is as it was; for a
    request for any other URL that cache holds the same pairs, in the
    same order, and answers as it did before; and the caches are the same
    ones, in the same order, with at most that cache added behind. *)
Theorem install_frame net (st : CacheStorage) :
  let st' := (install cfg net st).1.2 in
  (forall name, name <> cacheName cfg ->
     storage_lookup name st' = storage_lookup name st) /\
  (forall q,
     (forall u, In u (preCacheURLs cfg) -> same_url q (new_request cfg u) = false) ->
     exists c' : Cache,
       storage_lookup (cacheName cfg) st' = Some c' /\
       List.filter (fun e => same_url q e.1) c' =
       List.filter (fun e => same_url q e.1)
         (default [] (storage_lookup (cacheName cfg) st)) /\
       cache_match c' q =
       cache_match (default [] (storage_lookup (cacheName cfg) st)) q) /\
  (storage_keys st' = storage_keys st \/
   storage_keys st' = (storage_keys st ++ [cacheName cfg])%list).
Proof.
  simpl. split; [intros name Hn; apply install_lookup_ne, Hn|]. split.
  - intros q Hq. destruct (install_lookup net st) as [Hl|(got & c' & Hf & Hp & Hl)].
    + eexists. split; [exact Hl|]. split; reflexivity.
    + exists c'. split; [exact Hl|].
      pose proof (batch_other_urls net got q Hf Hq) as Hb. split.
      * apply (put_all_frame_entries got _ c' q Hp Hb).
      * apply (put_all_frame got _ c' q Hp Hb).
  - rewrite install_unfold. pose proof (storage_keys_open (cacheName cfg) st) as Hkeys.
    destruct (cache_addAll _ _ _ _); simpl; rewrite ?storage_keys_update; exact Hkeys.
Qed.


Lemma storage_match_not_get (st : CacheStorage) r :
  is_get r = false -> storage_match st r = None.
Proof.
  intros Hg. induction st as [|[n c] st IH]; simpl; [reflexivity|].
  unfold cache_match. rewrite Hg. exact IH.
Qed.

(** X9. A request that is not a GET always goes to the network, once; it
    is answered with the network's response, or with the cached fallback
    when the network fails; and no lookup in the caches is changed by
    it. *)
Theorem non_get_bypasses_cache net (st : CacheStorage) r :
  is_get r = false ->
  (on_fetch cfg r net st).2 = [r] /\
  (on_fetch cfg r net st).1.1 =
    match net r with
    | Some resp => Some resp
    | None => storage_match st (new_request cfg (defaultResponseURL cfg))
    end /\
  (forall r', storage_match (on_fetch cfg r net st).1.2 r' = storage_match st r').
Proof.
  intros Hg. pose proof (storage_match_not_get st r Hg) as Hm.
  destruct (net r) as [resp|] eqn:Hn.
  - rewrite (on_fetch_network _ _ _ _ _ Hm Hn).
    unfold put_accepts. rewrite Hg. simpl. repeat split.
    intros r'. apply storage_match_open.
  - rewrite (on_fetch_fallback _ _ _ _ Hm Hn). repeat split.
Qed.

Lemma on_fetch_keeps_entries net r (st : CacheStorage) name (c : Cache) :
  storage_lookup name st = Some c ->
  exists extra,
    storage_lookup name (on_fetch cfg r net st).1.2 = Some (c ++ extra)%list.
Proof.
  intros Hl.
  assert (Hopen : storage_lookup name (storage_open (cacheName cfg) st) = Some c).
  { destruct (decide (cacheName cfg = name)) as [E|E].
    - subst name. rewrite storage_lookup_open, Hl. reflexivity.
    - rewrite storage_lookup_open_ne; auto. }
  assert (Hsame : forall st0 : CacheStorage,
             storage_lookup name st0 = Some c ->
             exists extra, storage_lookup name st0 = Some (c ++ extra)%list).
  { intros st0 H. exists []. rewrite app_nil_r. exact H. }
  fetch_cases cfg net st r as Hm Hn; cbn [fst snd]; auto.
  destruct (put_accepts r _); auto.
  destruct (decide (cacheName cfg = name)) as [E|E].
  - subst name. rewrite Hl. simpl. eexists. eauto with storage.
  - exists []. rewrite app_nil_r, storage_lookup_update_ne by exact E. exact Hopen.
Qed.

(** X10. An interception only ever adds: every cache still holds the pairs
    it held, unchanged and in the same order, with at most new pairs
    behind them, and the caches are the same ones, in the same order,
    with at most the cache of the current generation added behind. *)
Theorem on_fetch_only_adds net r (st : CacheStorage) :
  let st' := (on_fetch cfg r net st).1.2 in
  (forall name (c : Cache),
     storage_lookup name st = Some c ->
     exists extra, storage_lookup name st' = Some (c ++ extra)%list) /\
  (storage_keys st' = storage_keys st \/
   storage_keys st' = (storage_keys st ++ [cacheName cfg])%list).
Proof.
  simpl. split; [intros name c; apply on_fetch_keeps_entries|].
  pose proof (storage_keys_open (cacheName cfg) st) as Hkeys.
  fetch_cases cfg net st r as Hm Hn; cbn [fst snd]; [left; reflexivity | |
    left; reflexivity].
  destruct (put_accepts r _); rewrite ?storage_keys_update; exact Hkeys.
Qed.

End Worker.

Lemma storage_lookup_None name (st : CacheStorage) :
  storage_lookup name st = None <-> name ∉ storage_keys st.
Proof.
  unfold storage_keys. induction st as [|[n c] st IH]; simpl.
  - split; [intros _; apply not_elem_of_nil | reflexivity].
  - rewrite not_elem_of_cons. case_bool_decide as E.
    + split; [discriminate | intros [H _]; congruence].
    + rewrite IH. split; [intros H; split; [congruence | exact H] | tauto].
Qed.

Lemma storage_open_NoDup name (st : CacheStorage) :
  NoDup (storage_keys st) -> NoDup (storage_keys (storage_open name st)).
Proof.
  intros H. unfold storage_open. destruct (storage_has name st) eqn:E; [exact H|].
  apply storage_has_false, storage_lookup_None in E.
  unfold storage_keys in *. rewrite fmap_app. apply NoDup_app. split; [exact H|].
  split; [|apply NoDup_singleton].
  intros x Hx Hx'. apply list_elem_of_singleton in Hx'. subst x. exact (E Hx).
Qed.

Lemma storage_filter_NoDup (P : string * Cache -> Prop) `{forall x, Decision (P x)}
  (st : CacheStorage) :
  NoDup (storage_keys st) -> NoDup (storage_keys (filter P st)).
Proof.
  unfold storage_keys. induction st as [|[n c] st IH]; [auto|]. simpl.
  rewrite NoDup_cons. intros [Hn Hnd]. rewrite filter_cons.
  destruct (decide (P (n, c))); [|auto]. simpl. apply NoDup_cons. split; [|auto].
  intros Hin. apply Hn. apply list_elem_of_fmap in Hin as ([n' c'] & -> & Hin).
  apply list_elem_of_filter in Hin as [_ Hin].
  apply list_elem_of_fmap. exists (n', c'). auto.
Qed.

(** X11. Every phase of the worker keeps the names of the caches
    distinct. *)
Theorem cache_names_stay_unique cfg net r (st : CacheStorage) :
  NoDup (storage_keys st) ->
  NoDup (storage_keys (install cfg net st).1.2) /\
  NoDup (storage_keys (activate cfg net st).1.2) /\
  NoDup (storage_keys (on_fetch cfg r net st).1.2).
Proof.
  intros H. split; [|split].
  - rewrite install_unfold. destruct (cache_addAll _ _ _ _); simpl;
      rewrite ?storage_keys_update; apply storage_open_NoDup, H.
  - rewrite activate_result. simpl. apply storage_filter_NoDup, H.
  - fetch_cases cfg net st r as Hm Hn; simpl; auto.
    destruct (put_accepts r _); rewrite ?storage_keys_update;
      apply storage_open_NoDup, H.
Qed.

(** X12. A worker whose keep list names its own generation only, as the
    deployed one does, leaves exactly one cache when it activates: its
    own. *)
Theorem one_generation_remains cfg net (st : CacheStorage) :
  keepExtra cfg = [] -> NoDup (storage_keys st) ->
  is_Some (storage_lookup (cacheName cfg) st) ->
  storage_keys (activate cfg net st).1.2 = [cacheName cfg].
Proof.
  intros Hk Hnd Hs. rewrite activate_result. unfold cacheKeepList. rewrite Hk.
  simpl. unfold storage_keys in *.
  induction st as [|[n c] st IH]; simpl in *; [destruct Hs as [? [=]]|].
  apply NoDup_cons in Hnd as [Hn Hnd]. rewrite filter_cons. simpl.
  case_bool_decide as E.
  - subst n. rewrite decide_True by (apply list_elem_of_singleton; reflexivity).
    simpl. f_equal.
    clear IH Hs. induction st as [|[n' c'] st IH]; [reflexivity|].
    simpl in *. apply not_elem_of_cons in Hn as [Hne Hn].
    apply NoDup_cons in Hnd as [_ Hnd]. rewrite filter_cons. simpl.
    rewrite decide_False; [auto|]. rewrite list_elem_of_singleton. congruence.
  - rewrite decide_False; [auto|]. rewrite list_elem_of_singleton. exact E.
Qed.

Section Answers.
Context (cfg : Config).

Lemma install_fulfilled_holds net (st : CacheStorage) :
  (install cfg net st).1.1 = Fulfilled ->
  holds_fallback cfg (install cfg net st).1.2.
Proof.
  rewrite install_unfold. unfold cache_addAll.
  change (map (request_of_url (parse_url cfg))) with (map (new_request cfg)).
  destruct (fetch_all net _) as [got|] eqn:Hf; [|discriminate].
  destruct (put_all got [] _) as [c'|] eqn:Hp; [|discriminate]. intros _. simpl.
  exists c'. split; [eauto with storage|].
  destruct (precache_batch cfg net got Hf) as (Hkeys & Hplain & _).
  assert (Hin : In (new_request cfg (defaultResponseURL cfg)) got.*1)
    by (rewrite Hkeys; left; reflexivity).
  apply in_map_iff in Hin as ([r resp] & Hr & Hin). simpl in Hr. subst r.
  exists resp. apply (put_all_answers got _ c' _ _ Hp); [|exact Hin].
  eapply Forall_impl; [exact Hplain|]. intros e (_ & H1 & H2). auto.
Qed.

(** The install phase of any generation leaves an answer to the fallback
    request: the one that was there, or the one it has just stored. *)
Lemma install_holds_fallback cfg' net (st : CacheStorage) :
  holds_fallback cfg st -> holds_fallback cfg (install cfg' net st).1.2.
Proof.
  intros (c & Hl & Hu). unfold holds_fallback.
  destruct (decide (cacheName cfg' = cacheName cfg)) as [E|E];
    [|exists c; split; [rewrite install_lookup_ne; auto | exact Hu]].
  destruct (install_lookup cfg' net st) as [Hl'|(got & c' & Hf & Hp & Hl')];
    rewrite E, Hl in *; simpl in *.
  - exists c. auto.
  - exists c'. split; [exact Hl'|].
    set (q := new_request cfg (defaultResponseURL cfg)) in *.
    destruct Hu as [page Hu]. apply cache_match_Some in Hu as [_ (stored & Hin & Hm)].
    pose proof (put_all_spec got [] c c') as Hspec. rewrite app_nil_r in Hspec.
    specialize (Hspec Hp). simpl in Hspec.
    destruct (precache_batch cfg' net got Hf) as (_ & Hplain & _).
    destruct (forallb (fun b : Request * Response =>
                         negb (request_matches b.1 (stored, page))) got) eqn:Ef.
    + apply (cache_match_hit c' q (stored, page)); [reflexivity | | exact Hm].
      rewrite Hspec. apply in_app_iff. left. apply filter_In. auto.
    + assert (Hex : exists b, In b got /\ request_matches b.1 (stored, page) = true).
      { clear -Ef. induction got as [|b got IH]; simpl in Ef; [discriminate|].
        destruct (request_matches b.1 (stored, page)) eqn:Eb.
        - exists b. split; [left; reflexivity | exact Eb].
        - destruct (IH Ef) as (b' & Hb' & Hm'). exists b'. split; [right|]; assumption. }
      destruct Hex as ([b x] & Hb & Hbm). simpl in Hbm.
      apply (cache_match_hit c' q (b, x)); [reflexivity | |].
      * rewrite Hspec. apply in_app_iff. right. exact Hb.
      * rewrite Forall_forall in Hplain.
        destruct (Hplain _ (proj2 (list_elem_of_In _ _) Hb)) as (Hh & Hg & Hv).
        simpl in Hh, Hg, Hv.
        rewrite request_matches_plain by (try assumption; reflexivity).
        apply request_matches_url in Hm, Hbm. simpl in Hm, Hbm.
        rewrite (same_url_sym b) in Hbm. exact (same_url_trans _ _ _ Hm Hbm).
Qed.

Lemma on_fetch_holds_fallback cfg' net r (st : CacheStorage) :
  holds_fallback cfg st -> holds_fallback cfg (on_fetch cfg' r net st).1.2.
Proof.
  intros (c & Hl & [page Hu]).
  destruct (on_fetch_keeps_entries cfg' net r st _ _ Hl) as (extra & Hl').
  exists (c ++ extra)%list. split; [exact Hl'|]. rewrite cache_match_app, Hu. eauto.
Qed.

Lemma waiting_holds_fallback (st : CacheStorage) :
  waiting cfg st -> holds_fallback cfg st.
Proof.
  induction 1 as [net st Hi|cfg' net r st _ IH|cfg' net st _ IH].
  - apply install_fulfilled_holds, Hi.
  - apply on_fetch_holds_fallback, IH.
  - apply install_holds_fallback, IH.
Qed.

Lemma served_by_holds_fallback (st : CacheStorage) :
  served_by cfg st -> holds_fallback cfg st.
Proof.
  induction 1 as [net st Hw|net r st _ IH|cfg' net st _ IH].
  - destruct (waiting_holds_fallback st Hw) as (c & Hl & Hu).
    exists c. split; [|exact Hu]. rewrite activate_result. simpl.
    rewrite storage_lookup_filter_keep. rewrite decide_True; [exact Hl|].
    unfold cacheKeepList. apply list_elem_of_here.
  - apply on_fetch_holds_fallback, IH.
  - apply install_holds_fallback, IH.
Qed.

(** X13. Once a worker is in charge, no interception ends without an
    answer: its install phase has precached the offline fallback, and
    neither its activation, nor an interception, nor the install phase of
    a later generation leaves the fallback request unanswered. *)
Theorem worker_always_answers net r (st : CacheStorage) :
  served_by cfg st -> is_Some (on_fetch cfg r net st).1.1.
Proof.
  intros Hs. destruct (served_by_holds_fallback st Hs) as (c & Hl & [page Hu]).
  fetch_cases cfg net st r as Hm Hn; simpl; eauto.
  exact (storage_match_hit _ _ _ _ page Hl Hu).
Qed.

End Answers.
End SWMoreFacts.

(** ** More facts about the service worker manager *)
Module SWManagerMoreFacts.
Import Page SWManager SWManagerRuns PageFacts.

Lemma repeat_listener_none env m n :
  reg_installing env = None \/ n = 0 ->
  statechange_listeners (repeat_listener n env m).1 = statechange_listeners m /\
  updatefound_listeners (repeat_listener n env m).1 = updatefound_listeners m.
Proof.
  revert m. induction n as [|n IH]; intros m H; simpl; [auto|].
  destruct H as [H|H]; [|discriminate].
  unfold on_updatefound. rewrite H.
  specialize (IH {| sw := sw m; newSw := None; filePath := filePath m;
                    options := options m;
                    updatefound_listeners := updatefound_listeners m;
                    statechange_listeners := statechange_listeners m |}
                 (or_introl H)).
  destruct (repeat_listener n env _) as [m2 out2]. simpl in *. exact IH.
Qed.

(** X14. A manager whose registration never resolves attaches no listener
    and does nothing but log: whatever else the browser delivers, it posts
    no message, raises no event and throws nothing. *)
Theorem unregistered_manager_is_silent m evs :
  updatefound_listeners m = 0 -> statechange_listeners m = [] ->
  Forall (fun x => is_resolved x.2 = false) evs ->
  updatefound_listeners (run m evs).1 = 0 /\
  statechange_listeners (run m evs).1 = [] /\
  Forall (fun eff => is_log eff = true) (run m evs).2.
Proof.
  intros Hu Hs Hevs. revert m Hu Hs.
  induction Hevs as [|[env ev] evs Hev _ IH]; intros m Hu Hs; simpl.
  - auto.
  - assert (Hstep : updatefound_listeners (step env m ev).1 = 0 /\
                    statechange_listeners (step env m ev).1 = [] /\
                    Forall (fun eff => is_log eff = true) (step env m ev).2).
    { destruct ev as [reg|err| |w]; simpl in *; try discriminate.
      - repeat split; auto; repeat constructor.
      - rewrite Hu. simpl. auto.
      - rewrite Hs. simpl. auto. }
    destruct (step env m ev) as [m1 out1]. simpl in Hstep.
    destruct Hstep as (Hu1 & Hs1 & Hout1).
    specialize (IH m1 Hu1 Hs1). destruct (run m1 evs) as [m2 out2]. simpl in *.
    destruct IH as (? & ? & ?). repeat split; auto. apply Forall_app. auto.
Qed.

Lemma on_statechange_posts env m :
  Forall (fun x => newSw m = Some x.1 /\ x.2 = "skipWaiting")
    (posts (on_statechange env m)).
Proof.
  unfold on_statechange. destruct (newSw m) as [w|]; [|constructor].
  destruct (worker_state env w), (controller env); simpl; repeat constructor.
Qed.

Lemma step_posts env m ev :
  Forall (fun x => x.2 = "skipWaiting") (posts (step env m ev).2).
Proof.
  destruct ev as [reg|err| |w]; simpl; try constructor.
  - generalize (updatefound_listeners m). intros n. revert m.
    induction n as [|n IH]; intros m; simpl; [constructor|].
    destruct (on_updatefound env m) as [m1 out1] eqn:E1.
    specialize (IH m1). destruct (repeat_listener n env m1) as [m2 out2].
    simpl in *. rewrite posts_app. apply Forall_app. split; [|exact IH].
    unfold on_updatefound in E1.
    destruct (reg_installing env); injection E1 as _ <-; constructor.
  - induction (filter _ _) as [|x l IH]; simpl; [constructor|].
    rewrite posts_app. apply Forall_app. split; [|exact IH].
    eapply Forall_impl; [apply on_statechange_posts|]. intros p [_ H]. exact H.
Qed.

(** X15. Whatever happens, every message the manager posts carries the
    action that the worker's "message" listener acts on. *)
Theorem every_post_is_understood m evs w action :
  In (w, action) (posts (run m evs).2) -> SW.on_message action = [SW.SkipWaiting].
Proof.
  revert m. induction evs as [|[env ev] evs IH]; intros m; simpl; [tauto|].
  pose proof (step_posts env m ev) as Hs.
  destruct (step env m ev) as [m1 out1]. specialize (IH m1).
  destruct (run m1 evs) as [m2 out2]. simpl in *.
  rewrite posts_app, in_app_iff. intros [H|H]; [|auto].
  rewrite Forall_forall in Hs. apply list_elem_of_In, Hs in H. simpl in H. subst action.
  reflexivity.
Qed.

Lemma run_resolved env m regs :
  let m' := (run m (map (fun reg => (env, RegisterResolved reg)) regs)).1 in
  updatefound_listeners m' = updatefound_listeners m + length regs /\
  statechange_listeners m' = statechange_listeners m /\ newSw m' = newSw m.
Proof.
  revert m. induction regs as [|reg regs IH]; intros m; simpl.
  - repeat split. lia.
  - specialize (IH {| sw := Some reg; newSw := newSw m; filePath := filePath m;
                      options := options m;
                      updatefound_listeners := S (updatefound_listeners m);
                      statechange_listeners := statechange_listeners m |}).
    destruct (run _ _) as [m2 out2]. simpl in *. destruct IH as (-> & -> & ->).
    repeat split. lia.
Qed.

Lemma repeat_listener_some env m n w :
  reg_installing env = Some w ->
  statechange_listeners (repeat_listener n env m).1 =
    (statechange_listeners m ++ repeat w n)%list /\
  newSw (repeat_listener n env m).1 = match n with O => newSw m | S _ => Some w end.
Proof.
  intros Hw. revert m. induction n as [|n IH]; intros m; simpl.
  - rewrite app_nil_r. auto.
  - unfold on_updatefound. rewrite Hw.
    specialize (IH {| sw := sw m; newSw := Some w; filePath := filePath m;
                      options := options m;
                      updatefound_listeners := updatefound_listeners m;
                      statechange_listeners := (statechange_listeners m ++ [w])%list |}).
    destruct (repeat_listener n env _) as [m2 out2]. simpl in *.
    destruct IH as [-> Hn]. split.
    + rewrite <- app_assoc. reflexivity.
    + rewrite Hn. destruct n; reflexivity.
Qed.

Lemma run_app m evs1 evs2 :
  (run m (evs1 ++ evs2)).1 = (run (run m evs1).1 evs2).1.
Proof.
  revert m. induction evs1 as [|[env ev] evs1 IH]; intros m; simpl; [reflexivity|].
  destruct (step env m ev) as [m1 out1]. specialize (IH m1).
  destruct (run m1 (evs1 ++ evs2)) as [m2 out2].
  destruct (run m1 evs1) as [m3 out3]. simpl in *. exact IH.
Qed.

(** X16. A manager whose registration resolved [k] times, its [init]
    having run [k] times, announces an update [k] times: when the worker
    found afterwards is installed and the page has a controller, one state
    change posts the skip-waiting message [k] times. *)
Theorem registrations_multiply_handshake env path opts regs w c :
  reg_installing env = Some w -> worker_state env w = installed ->
  controller env = Some c ->
  let m := (run (constructor path opts)
              (map (fun reg => (env, RegisterResolved reg)) regs
               ++ [(env, UpdateFound)])).1 in
  posts (step env m (StateChange w)).2 = repeat (w, "skipWaiting") (length regs).
Proof.
  intros Hw Hs Hc. simpl. rewrite run_app.
  destruct (run_resolved env (constructor path opts) regs) as (Hu & Hl & Hn).
  set (m1 := (run (constructor path opts) _).1) in *. simpl in Hu, Hl, Hn.
  simpl. destruct (repeat_listener_some env m1 (updatefound_listeners m1) w Hw)
    as [Hl2 Hn2].
  destruct (repeat_listener _ env m1) as [m2 out2]. simpl in *.
  rewrite Hl2, Hl, Hu. simpl.
  destruct (length regs) as [|k] eqn:Hk; [reflexivity|].
  assert (Hf : filter (fun w' => w' = w) (repeat w (S k)) = repeat w (S k)).
  { generalize (S k). intros n. induction n as [|n IH]; [reflexivity|]. simpl.
    rewrite filter_cons_True by reflexivity. rewrite IH. reflexivity. }
  rewrite Hf. rewrite Hu in Hn2. simpl in Hn2.
  rewrite (SWManagerFacts.on_statechange_update env m2 w c Hn2 Hs Hc).
  generalize (S k). intros n. induction n as [|n IH]; [reflexivity|].
  simpl. rewrite IH. reflexivity.
Qed.

End SWManagerMoreFacts.

(** ** More facts about the page *)
Module PWAMoreFacts.
Import Page PWA PageFacts PWAFacts PWAWiring.

Lemma well_wired_add t type h p :
  wired (mkListener t type h) = true -> well_wired p ->
  well_wired (addEventListener t type h p).
Proof.
  intros Hw Hp. unfold well_wired. simpl. apply Forall_app. split; [exact Hp|].
  constructor; [exact Hw | constructor].
Qed.

Lemma on_load_wired env p : well_wired p -> well_wired (on_load env p).1.
Proof.
  intros Hp. unfold on_load.
  assert (H1 : well_wired
                 (addEventListener Window "beforeInstallPrompt" OnBeforeInstallPrompt p))
    by (apply well_wired_add; [reflexivity | exact Hp]).
  set (p1 := addEventListener Window "beforeInstallPrompt" OnBeforeInstallPrompt p) in *.
  assert (H2 : well_wired
                 match installButton p1 with
                 | VElement el => addEventListener (Element el) "click" OnInstallClick p1
                 | _ => p1
                 end).
  { destruct (installButton p1); auto. apply well_wired_add; [reflexivity | exact H1]. }
  set (p2 := match installButton p1 with VElement _ => _ | _ => _ end) in *.
  destruct (updateButton p2); simpl;
    try (apply well_wired_add; [reflexivity | exact H2]).
  destruct (global_updateButton env) as [[]|]; simpl; auto.
  apply well_wired_add; [reflexivity|]. apply well_wired_add; [reflexivity | exact H2].
Qed.

Lemma run_handler_wired env h e p :
  well_wired p -> well_wired (run_handler env h e p).1.
Proof.
  intros Hp. destruct h; simpl; handler_cases; try exact Hp.
  apply on_load_wired, Hp.
Qed.

Lemma launch_wired env a p out : launch env a = (Normal p, out) -> well_wired p.
Proof.
  intros Hl. apply launch_inv in Hl.
  destruct Hl as (o & _ & _ & _ & _ & _ & _ & _ & _ & Hls).
  unfold well_wired. rewrite Hls. repeat constructor.
Qed.

Lemma wired_known l : wired l = true -> In (l_type l) known_types.
Proof.
  destruct l as [t type h]. unfold wired. simpl.
  destruct h; try (intros H; apply bool_decide_eq_true in H as [_ ->]; simpl; tauto);
    intros H; apply andb_prop in H as [_ H]; apply bool_decide_eq_true in H;
    subst type; simpl; tauto.
Qed.

Lemma run_wired p evs : well_wired p -> well_wired (run p evs).1.
Proof.
  intros Hp.
  apply (run_inv well_wired (fun _ => True) (fun _ _ => True) (fun _ _ => True));
    auto.
  - intros env h e q _ Hq. split; [apply run_handler_wired, Hq|].
    apply Forall_forall. auto.
  - apply Forall_forall. auto.
Qed.

(** X17. The page only listens for the six event types written in [init] and in
    the "load" listener: an event of any other type, on any target, at any
    moment after the launch, runs no listener and changes nothing. *)
Theorem unknown_event_types_ignored env a p out evs env' t type e :
  launch env a = (Normal p, out) -> ~ In type known_types ->
  step env' (run p evs).1 (Dom t type e) = ((run p evs).1, []).
Proof.
  intros Hl Ht. apply launch_wired in Hl. apply (run_wired _ evs) in Hl.
  simpl. unfold dispatch.
  replace (filter _ (listeners (run p evs).1)) with (@nil Listener); [reflexivity|].
  symmetry. unfold well_wired in Hl.
  induction Hl as [|l ls Hw _ IH]; [reflexivity|].
  rewrite filter_cons_False; [exact IH|].
  intros [_ E]. apply Ht. rewrite <- E. apply wired_known, Hw.
Qed.

Lemma wired_callback cb l :
  wired l = true -> l_handler l = callback_handler cb ->
  l_target l = callback_target cb /\ l_type l = callback_type cb.
Proof.
  destruct l as [t type h]. unfold wired. simpl. intros Hw ->.
  destruct cb; simpl in *; apply bool_decide_eq_true in Hw; exact Hw.
Qed.




Lemma on_load_updateButton env p : updateButton (on_load env p).1 = updateButton p.
Proof.
  unfold on_load. simpl. destruct (installButton p); simpl;
    destruct (updateButton p) eqn:E; simpl; rewrite ?E;
    try destruct (global_updateButton env) as [[]|]; simpl; rewrite ?E; reflexivity.
Qed.

(** X20. With an update button bound and no global named [updateButton], the
    "load" listener stops at the free name: from the launch on, whatever
    is dispatched, the page never reloads on a click and the host's
    [appInstalled] callback is never called. *)
Theorem update_button_never_wired env o p out el evs :
  launch env (Given o) = (Normal p, out) -> opt_updateButton o = Some (VElement el) ->
  Forall (fun x => global_updateButton x.1 = None) evs ->
  Forall (fun eff => update_effect eff = false) (run p evs).2.
Proof.
  intros Hl Ho Hevs.
  assert (Hp : update_unwired p /\ updateButton p = VElement el).
  { apply launch_inv in Hl.
    destruct Hl as (o' & [= <-] & _ & _ & _ & _ & _ & Hu & _ & Hls).
    rewrite Ho in Hu. split; [|exact Hu].
    unfold update_unwired. rewrite Hls. repeat constructor; discriminate. }
  apply (run_inv (fun q => update_unwired q /\ updateButton q = VElement el)
           (fun eff => update_effect eff = false)
           (fun env' h => global_updateButton env' = None /\
                          h <> OnUpdateClick /\ h <> OnAppInstalled)
           (fun env' _ => global_updateButton env' = None));
    auto.
  - intros eff Heff. destruct eff; try reflexivity; discriminate.
  - intros env' h e q (Hg & H1 & H2) [Hq Hu].
    destruct h; simpl; try contradiction.
    + destruct (on_load_stops env' q el Hu Hg Hq) as [H3 ->].
      rewrite on_load_updateButton. repeat constructor; assumption.
    + handler_cases; repeat constructor; assumption.
    + handler_cases; repeat constructor; assumption.
    + handler_cases; repeat constructor; assumption.
    + repeat constructor; assumption.
  - intros env' t type e q l Hok [Hq _] Hin _ _.
    unfold update_unwired in Hq. rewrite Forall_forall in Hq.
    apply list_elem_of_In, Hq in Hin. tauto.
Qed.

(** X21. The guard flag is never cleared: once [refreshing] is set, it stays
    set whatever is dispatched afterwards. *)
Theorem refreshing_never_resets p evs :
  refreshing p = true -> refreshing (run p evs).1 = true.
Proof.
  intros E. apply run_refreshing, E.
Qed.

Lemma on_load_listeners env p :
  exists extra,
    listeners (on_load env p).1 = (listeners p ++ extra)%list /\
    Forall (fun l => l_target l <> ServiceWorkerContainer /\
                     l_type l <> "updatefound") extra.
Proof.
  unfold on_load. simpl.
  destruct (installButton p); simpl; destruct (updateButton p); simpl;
    try destruct (global_updateButton env) as [[]|]; simpl;
    rewrite <- ?app_assoc; eexists; (split; [reflexivity|]);
    repeat constructor; discriminate.
Qed.

Lemma filter_extra (P : Listener -> Prop) `{forall l, Decision (P l)} extra :
  Forall (fun l => ~ P l) extra -> filter P extra = [].
Proof.
  induction 1 as [|l ls Hne _ IH]; [reflexivity|].
  rewrite filter_cons_False; [exact IH | exact Hne].
Qed.

Lemma run_handler_guarded env h e p :
  h <> OnControllerChange -> guarded p -> guarded (run_handler env h e p).1.
Proof.
  intros Hh (Hw & Hr & Hc). split; [apply run_handler_wired, Hw|].
  destruct h; simpl; try contradiction; handler_cases; try (split; assumption).
  split; [rewrite on_load_refreshing; exact Hr|].
  destruct (on_load_listeners env p) as (extra & Hl & Hx).
  unfold controller_listeners in *. rewrite Hl, filter_app, Hc.
  rewrite filter_extra; [reflexivity|].
  eapply Forall_impl; [exact Hx|]. simpl. tauto.
Qed.

(** X22. The first event of type "controllerChange" on
    [navigator.serviceWorker] calls the host with that event, once,
    whatever was dispatched on the page between the launch and that
    event; the flag is set when the callback returns normally and is left
    unset, the exception uncaught, when it throws. *)
Theorem first_controller_change_calls_host env a p out evs env' e :
  launch env a = (Normal p, out) ->
  Forall (fun x => is_dom ServiceWorkerContainer "controllerChange" x.2 = false) evs ->
  step env' (run p evs).1 (Dom ServiceWorkerContainer "controllerChange" e) =
  match host_throws env' ControllerChange with
  | None => (set_refreshing true (run p evs).1, [CallHost ControllerChange e])
  | Some err => ((run p evs).1, [CallHost ControllerChange e; Uncaught err])
  end.
Proof.
  intros Hl Hevs.
  assert (Hp : guarded p).
  { split; [eapply launch_wired, Hl|]. apply launch_inv in Hl.
    destruct Hl as (o & _ & _ & _ & Hr & _ & _ & _ & _ & Hls). split; [exact Hr|].
    unfold controller_listeners. rewrite Hls. reflexivity. }
  destruct (run_inv guarded (fun _ => True) (fun _ h => h <> OnControllerChange)
              (fun _ ev => is_dom ServiceWorkerContainer "controllerChange" ev = false))
    with (p := p) (evs := evs) as [(_ & Hr & Hc) _]; try exact Hp; try exact Hevs; auto.
  - intros env0 h e0 q Hh Hq. split; [apply run_handler_guarded; assumption|].
    apply Forall_forall. auto.
  - intros env0 t type e0 q l Hok (Hq & _) Hin <- <- Hh.
    unfold well_wired in Hq. rewrite Forall_forall in Hq.
    apply list_elem_of_In, Hq in Hin.
    destruct (wired_callback ControllerChange l Hin Hh) as [Ht Hy].
    simpl in Hok. apply bool_decide_eq_false in Hok. tauto.
  - simpl. unfold dispatch. fold (controller_listeners (run p evs).1).
    rewrite Hc. simpl. rewrite Hr.
    destruct (host_throws env' ControllerChange); reflexivity.
Qed.

Lemma on_load_swManager env p : swManager (on_load env p).1 = swManager p.
Proof.
  unfold on_load. simpl. destruct (installButton p); simpl;
    destruct (updateButton p) eqn:E; simpl; rewrite ?E;
    try destruct (global_updateButton env) as [[]|]; simpl; rewrite ?E; reflexivity.
Qed.

Lemma run_handler_listening env h e p :
  listening p -> listening (run_handler env h e p).1.
Proof.
  intros [Hu Hm]. destruct h; simpl; handler_cases; try (split; assumption).
  split; [|rewrite on_load_swManager; exact Hm].
  destruct (on_load_listeners env p) as (extra & Hl & Hx).
  unfold update_listeners in *. rewrite Hl, filter_app, Hu.
  rewrite filter_extra; [reflexivity|].
  eapply Forall_impl; [exact Hx|]. simpl. tauto.
Qed.

Lemma run_listening p evs : listening p -> listening (run p evs).1.
Proof.
  intros Hp.
  apply (run_inv listening (fun _ => True) (fun _ _ => True) (fun _ _ => True));
    auto.
  - intros q m [Hu _]. split; [exact Hu | eexists; reflexivity].
  - intros env h e q _ Hq. split; [apply run_handler_listening, Hq|].
    apply Forall_forall. auto.
  - apply Forall_forall. auto.
Qed.

Lemma deliver_heard env out p :
  update_listeners p = [mkListener Window "updatefound" OnUpdateFound] ->
  Forall (fun eff => manager_effect eff = true) out ->
  deliver env out p = (p, heard out).
Proof.
  intros Hu Hout. induction Hout as [|eff rest He _ IH]; [reflexivity|].
  cbn [deliver]. destruct eff; try (rewrite IH; reflexivity).
  simpl in He. apply bool_decide_eq_true in He. subst type.
  unfold dispatch. fold (update_listeners p). rewrite Hu. simpl. rewrite IH.
  reflexivity.
Qed.

(** X24. At any moment after the launch, what the page does for an event
    of the service worker manager is what the manager does, with the log
    line of the page's "updatefound" listener right after each
    announcement the manager dispatches on the window; nothing else of
    the page runs, and the page keeps the manager's new state. *)
Theorem page_hears_every_update env a p out evs env' ev :
  launch env a = (Normal p, out) ->
  exists m,
    swManager (run p evs).1 = Some m /\
    step env' (run p evs).1 (Worker ev) =
    (set_swManager (Some (SWManager.step env' m ev).1) (run p evs).1,
     heard (SWManager.step env' m ev).2).
Proof.
  intros Hl.
  assert (Hp : listening p).
  { apply launch_inv in Hl.
    destruct Hl as (o & _ & _ & _ & _ & _ & _ & _ & Hm & Hls). split.
    - unfold update_listeners. rewrite Hls. reflexivity.
    - rewrite Hm. eauto. }
  destruct (run_listening p evs Hp) as [Hu [m Hm]].
  exists m. split; [exact Hm|]. simpl. rewrite Hm.
  pose proof (manager_effects env' m ev) as He.
  destruct (SWManager.step env' m ev) as [m' out']. simpl.
  apply deliver_heard; [exact Hu | exact He].
Qed.

(** X23. The continuation of an install click discards whatever prompt is stored
    when the user's choice arrives, also one that a later availability
    event has stored in the meantime. *)
Theorem late_choice_discards_newer_prompt env p d1 d2 outcome e :
  deferredPrompt p = Some d1 ->
  let clicked := (run_handler env OnInstallClick e p).1 in
  let renewed := (run_handler env OnBeforeInstallPrompt d2 clicked).1 in
  let settled := (step env renewed (UserChoice d1 outcome)).1 in
  deferredPrompt renewed = Some d2 /\ deferredPrompt settled = None /\
  forall e', run_handler env OnInstallClick e' settled =
             (settled, [UnhandledRejection "TypeError"]).
Proof.
  intros Hd. simpl. rewrite Hd. simpl.
  destruct (host_throws env BeforeInstallPrompt); simpl;
    (split; [reflexivity|]);
    (assert (Hn : exists n,
               length (filter (fun d' => d' = d1) (awaiting p ++ [d1])%list) = S n)
      by (rewrite filter_app, length_app; rewrite filter_cons_True by reflexivity;
          simpl; eexists; rewrite Nat.add_1_r; reflexivity));
    destruct Hn as [n ->];
    (pose proof (resume_all_discards outcome n
       (set_awaiting (filter (fun d' => d' <> d1) (awaiting p ++ [d1])%list)
          (set_deferredPrompt (Some d2) (set_awaiting (awaiting p ++ [d1])%list p))))
       as Hnone);
    (split; [exact Hnone|]); intros e'; rewrite Hnone; reflexivity.
Qed.

End PWAMoreFacts.

(** ** The additional facts on concrete runs *)
Module MoreRuns.
Import Platform SW Page Scenarios MoreScenarios.

Lemma cbtoa_alphabet_witness :
  Base64.cbtoa plus_bytes = "Pj4_" /\
  In "_"%char (list_ascii_of_string Base64.custom_alphabet) /\
  "_"%char <> "+"%char.
Proof.
  split; [reflexivity|].
  apply (Base64Facts.cbtoa_alphabet plus_bytes "_"%char).
  right. right. right. left. reflexivity.
Defined.

Lemma catob_rejects_witness : Base64.catob "a-b_" = None.
Proof.
  apply (Base64Facts.catob_rejects "a-b_" "-"%char).
  - right. left. reflexivity.
  - reflexivity.
  - discriminate.
  - discriminate.
  - reflexivity.
Defined.

Lemma install_frame_witness :
  storage_lookup "legacy" (install deployed online two_generations).1.2 =
    storage_lookup "legacy" two_generations /\
  exists c' : Cache,
    storage_lookup "v0.0.0" (install deployed online two_generations).1.2 = Some c' /\
    cache_match c' (get "/app.js") = Some (mkResponse 200 [] "new").
Proof.
  destruct (SWMoreFacts.install_frame deployed online two_generations)
    as (Hother & Hurl & _).
  split.
  - apply Hother. discriminate.
  - destruct (Hurl (get "/app.js")) as (c' & Hl & _ & Hm).
    + intros u [<-|[]]. vm_compute. reflexivity.
    + exists c'. split; [exact Hl | exact Hm].
Defined.


Lemma non_get_bypasses_cache_witness :
  (on_fetch deployed post_save online installed_storage).2 = [post_save] /\
  (on_fetch deployed post_save online installed_storage).1.1 = Some saved /\
  (forall r',
     storage_match (on_fetch deployed post_save online installed_storage).1.2 r' =
     storage_match installed_storage r').
Proof.
  apply (SWMoreFacts.non_get_bypasses_cache deployed online installed_storage post_save).
  reflexivity.
Defined.

Lemma on_fetch_only_adds_witness :
  exists extra,
    storage_lookup "v0.0.0"
      (on_fetch deployed get_missing online installed_storage).1.2 =
    Some ([(get "/offline.html", offline_page)] ++ extra)%list.
Proof.
  destruct (SWMoreFacts.on_fetch_only_adds deployed online get_missing installed_storage)
    as [Hkeep _].
  apply (Hkeep "v0.0.0"). vm_compute. reflexivity.
Defined.

Lemma cache_names_stay_unique_witness :
  NoDup (storage_keys (install deployed online two_generations).1.2) /\
  NoDup (storage_keys (activate deployed online two_generations).1.2) /\
  NoDup (storage_keys (on_fetch deployed get_missing online two_generations).1.2).
Proof.
  apply (SWMoreFacts.cache_names_stay_unique deployed online get_missing two_generations).
  apply (bool_decide_eq_true_1 _). vm_compute. reflexivity.
Defined.

Lemma one_generation_remains_witness :
  storage_keys (activate deployed offline two_generations).1.2 = ["v0.0.0"].
Proof.
  apply (SWMoreFacts.one_generation_remains deployed offline two_generations).
  - reflexivity.
  - apply (bool_decide_eq_true_1 _). vm_compute. reflexivity.
  - eexists. vm_compute. reflexivity.
Defined.

Lemma worker_always_answers_witness :
  served_by deployed serving_storage /\
  is_Some (on_fetch deployed get_missing offline serving_storage).1.1.
Proof.
  split; [exact Runs.serving_storage_served|].
  apply (SWMoreFacts.worker_always_answers deployed offline get_missing serving_storage).
  exact Runs.serving_storage_served.
Defined.

Lemma unregistered_manager_is_silent_witness :
  SWManager.updatefound_listeners
    (SWManagerRuns.run (SWManager.constructor "./sw.js" None) quiet_events).1 = 0 /\
  SWManager.statechange_listeners
    (SWManagerRuns.run (SWManager.constructor "./sw.js" None) quiet_events).1 = [] /\
  Forall (fun eff => SWManagerRuns.is_log eff = true)
    (SWManagerRuns.run (SWManager.constructor "./sw.js" None) quiet_events).2.
Proof.
  apply (SWManagerMoreFacts.unregistered_manager_is_silent
           (SWManager.constructor "./sw.js" None) quiet_events).
  - reflexivity.
  - reflexivity.
  - repeat constructor.
Defined.

Lemma every_post_is_understood_witness :
  In (2, "skipWaiting")
    (posts
       (SWManagerRuns.run (SWManager.constructor "./sw.js" None) handshake_events).2) /\
  SW.on_message "skipWaiting" = [SW.SkipWaiting].
Proof.
  assert (H : In (2, "skipWaiting")
                (posts
                   (SWManagerRuns.run (SWManager.constructor "./sw.js" None)
                      handshake_events).2))
    by (left; reflexivity).
  split; [exact H|].
  exact (SWManagerMoreFacts.every_post_is_understood
           (SWManager.constructor "./sw.js" None) handshake_events 2 "skipWaiting" H).
Defined.

Lemma registrations_multiply_handshake_witness :
  posts
    (SWManager.step updating
       (SWManagerRuns.run (SWManager.constructor "./sw.js" None)
          (map (fun reg => (updating, SWManager.RegisterResolved reg)) [0; 0]
           ++ [(updating, SWManager.UpdateFound)])).1
       (SWManager.StateChange 2)).2 =
  [(2, "skipWaiting"); (2, "skipWaiting")].
Proof.
  apply (SWManagerMoreFacts.registrations_multiply_handshake
           updating "./sw.js" None [0; 0] 2 1); reflexivity.
Defined.

Lemma unknown_event_types_ignored_witness :
  PWA.step updating (PWA.run (launched with_both_buttons) early_clicks).1
    (PWA.Dom PWA.ServiceWorkerContainer "controllerchange" 5) =
  ((PWA.run (launched with_both_buttons) early_clicks).1, []).
Proof.
  apply (PWAMoreFacts.unknown_event_types_ignored updating
           (PWA.Given with_both_buttons) (launched with_both_buttons)
           (PWA.launch updating (PWA.Given with_both_buttons)).2).
  - reflexivity.
  - simpl. intuition discriminate.
Defined.



Lemma update_button_never_wired_witness :
  Forall (fun eff => PWAWiring.update_effect eff = false)
    (PWA.run (launched with_both_buttons) early_clicks).2.
Proof.
  apply (PWAMoreFacts.update_button_never_wired updating with_both_buttons
           (launched with_both_buttons)
           (PWA.launch updating (PWA.Given with_both_buttons)).2
           "update-button").
  - reflexivity.
  - reflexivity.
  - repeat constructor.
Defined.

Lemma refreshing_never_resets_witness :
  PWA.refreshing
    (PWA.run (PWA.run (launched with_both_buttons) two_signals).1 early_clicks).1 = true.
Proof.
  apply (PWAMoreFacts.refreshing_never_resets
           (PWA.run (launched with_both_buttons) two_signals).1 early_clicks).
  reflexivity.
Defined.

Lemma first_controller_change_calls_host_witness :
  PWA.step updating (PWA.run (launched with_both_buttons) early_clicks).1
    (PWA.Dom PWA.ServiceWorkerContainer "controllerChange" 5) =
  (PWA.set_refreshing true (PWA.run (launched with_both_buttons) early_clicks).1,
   [CallHost ControllerChange 5]) /\
  PWA.step throwing (PWA.run (launched with_both_buttons) early_clicks).1
    (PWA.Dom PWA.ServiceWorkerContainer "controllerChange" 5) =
  ((PWA.run (launched with_both_buttons) early_clicks).1,
   [CallHost ControllerChange 5; Uncaught "Error: host"]).
Proof.
  split.
  - apply (PWAMoreFacts.first_controller_change_calls_host updating
             (PWA.Given with_both_buttons) (launched with_both_buttons)
             (PWA.launch updating (PWA.Given with_both_buttons)).2 early_clicks
             updating 5).
    + reflexivity.
    + repeat constructor.
  - apply (PWAMoreFacts.first_controller_change_calls_host updating
             (PWA.Given with_both_buttons) (launched with_both_buttons)
             (PWA.launch updating (PWA.Given with_both_buttons)).2 early_clicks
             throwing 5).
    + reflexivity.
    + repeat constructor.
Defined.

Lemma late_choice_discards_newer_prompt_witness :
  PWA.deferredPrompt prompted_page = Some 7 /\
  let clicked := (PWA.run_handler updating PWA.OnInstallClick 8 prompted_page).1 in
  let renewed := (PWA.run_handler updating PWA.OnBeforeInstallPrompt 9 clicked).1 in
  let settled := (PWA.step updating renewed (PWA.UserChoice 7 "accepted")).1 in
  PWA.deferredPrompt renewed = Some 9 /\ PWA.deferredPrompt settled = None /\
  forall e', PWA.run_handler updating PWA.OnInstallClick e' settled =
             (settled, [UnhandledRejection "TypeError"]).
Proof.
  split; [reflexivity|].
  apply (PWAMoreFacts.late_choice_discards_newer_prompt updating prompted_page
           7 9 "accepted" 8).
  reflexivity.
Defined.

Lemma page_hears_every_update_witness :
  exists m,
    PWA.swManager (PWA.run (launched with_both_buttons) early_clicks).1 = Some m /\
    PWA.step updating (PWA.run (launched with_both_buttons) early_clicks).1
      (PWA.Worker (SWManager.RegisterResolved 0)) =
    (PWA.set_swManager (Some (SWManager.step updating m (SWManager.RegisterResolved 0)).1)
       (PWA.run (launched with_both_buttons) early_clicks).1,
     PWAWiring.heard (SWManager.step updating m (SWManager.RegisterResolved 0)).2).
Proof.
  apply (PWAMoreFacts.page_hears_every_update updating
           (PWA.Given with_both_buttons) (launched with_both_buttons)
           (PWA.launch updating (PWA.Given with_both_buttons)).2).
  reflexivity.
Defined.

End MoreRuns.
